(** * blob-preconfs: the relay auction listener and its signed bids

    A shallow embedding of the Go packages [auction] (the signed bid, its
    digest, signature check and wire codec) and [listener] (the block
    polling loop, the per-block auction round and the bid submission
    surface), followed by the properties proved about them.

    Conventions.
    - A pointer to [big.Int] is an [option Z]: [None] is the nil pointer.
    - A [uint64] is a [Z] kept in the range [0, 2^64) by [Uint64.wrap].
    - [common.Hash], [common.Address] and [hexutil.Bytes] are byte lists.
    - Go's [string] is a [string]; [[]byte(s)] is [list_byte_of_string s].
    - A goroutine is a function of the inputs its [select] statements
      receive, in order; what it sends on a channel is appended to the
      channel's history in the listener state.
    - [os.Exit] and a run-time panic are control results ([ctl]), never
      ordinary return values. *)

From Stdlib Require Import ZArith List Bool Lia Sorting.Sorted.
From Stdlib Require Import Strings.String Strings.Ascii Strings.Byte.
From Stdlib Require Import DecimalString DecimalZ DecimalPos DecimalFacts.
Import ListNotations.

Local Open Scope string_scope.
Local Open Scope list_scope.
Local Open Scope Z_scope.

(* ================================================================== *)
(** ** Machine integers *)

Module Uint64.

Definition modulus : Z := 2 ^ 64.

(** The value a [uint64] holds after a conversion or an overflow. *)
Definition wrap (z : Z) : Z := z mod modulus.

(** Go's conversion [int64(x)] of a [uint64]: the same 64 bits read as
    two's complement. *)
Definition to_int64 (x : Z) : Z :=
  let w := wrap x in
  if w <? 2 ^ 63 then w else w - modulus.

End Uint64.

(* ================================================================== *)
(** ** math/big *)

Module big.

(** [*big.Int]; [None] is nil. *)
Definition Int : Type := option Z.

(** [big.NewInt(x)] for an [int64] value [x]. *)
Definition NewInt (x : Z) : Int := Some x.

(** The [String] method of [Int]: base-10 text, with a leading minus sign for a
    negative value; a nil receiver prints as ["<nil>"]. *)
Definition String (x : Int) : string :=
  match x with
  | None => "<nil>"
  | Some z => NilZero.string_of_int (Z.to_int z)
  end.

(** The [Uint64] method of [Int]: the low 64 bits of the absolute value.  A nil
    receiver is a nil-pointer dereference ([None] here). *)
Definition Uint64 (x : Int) : option Z :=
  match x with
  | None => None
  | Some z => Some (Uint64.wrap (Z.abs z))
  end.

End big.

(* ================================================================== *)
(** ** Control results *)

(** How a call ends: it returns, the process exits through [os.Exit], or
    the goroutine panics. *)
Inductive ctl (A : Type) : Type :=
| Normal (a : A)
| OsExit (code : Z)
| GoPanic (msg : string).

Arguments Normal {A} a.
Arguments OsExit {A} code.
Arguments GoPanic {A} msg.

(** Go's [error] values, by their message. *)
Definition error : Type := string.

(* ================================================================== *)
(** ** go-ethereum: crypto *)

Definition Hash : Type := list byte.
Definition Address : Type := list byte.
Definition Bytes : Type := list byte.

Definition HashLength : nat := 32.
Definition AddressLength : nat := 20.
Definition SignatureLength : nat := 65.

(** [common.Address{}] *)
Definition zeroAddr : Address := repeat x00 AddressLength.

Definition byte_list_eqb (a b : list byte) : bool :=
  if list_eq_dec Byte.byte_eq_dec a b then true else false.

(** The primitives of [github.com/ethereum/go-ethereum/crypto] that the
    package calls. *)
Class Crypto : Type := {
  PrivateKey : Type;
  PublicKey : Type;
  (** [crypto.Keccak256Hash] *)
  Keccak256Hash : list byte -> Hash;
  (** [crypto.Sign(digest, key)]: a 65-byte [R || S || V] signature, or an
      error. *)
  Sign : Hash -> PrivateKey -> Bytes + error;
  (** [crypto.SigToPub(digest, sig)]: the public key that made [sig], or an
      error. *)
  SigToPub : Hash -> Bytes -> PublicKey + error;
  (** [crypto.PubkeyToAddress] *)
  PubkeyToAddress : PublicKey -> Address;
  (** [key.PublicKey] *)
  PrivateKey_Public : PrivateKey -> PublicKey
}.

(** What the library promises about the primitives. *)
Class CryptoLaws (K : Crypto) : Prop := {
  (** a signature recovers to the signing key's public key *)
  Sign_SigToPub : forall h k sig,
    Sign h k = inl sig -> SigToPub h sig = inl (PrivateKey_Public k);
  (** recovery refuses a signature that is not 65 bytes long *)
  SigToPub_length : forall h sig,
    List.length sig <> SignatureLength -> exists e, SigToPub h sig = inr e
}.

(* ================================================================== *)
(** ** package auction: the signed bid *)

Record SignedBid : Type := {
  AmountWei : big.Int;
  L1Block : big.Int;
  Address_ : Address;
  Signature : Bytes
}.

(** [auction.SignedBid{}] *)
Definition zeroBid : SignedBid :=
  {| AmountWei := None; L1Block := None;
     Address_ := zeroAddr; Signature := [] |}.

(** The bytes that are hashed: [fmt.Sprintf("%s%s", amountWei.String(),
    l1Block.String())]. *)
Definition getDataHash_data (amountWei l1Block : big.Int) : string :=
  (big.String amountWei ++ big.String l1Block)%string.

Section AuctionBid.
Context {K : Crypto}.

Definition getDataHash (amountWei l1Block : big.Int) : Hash :=
  Keccak256Hash (list_byte_of_string (getDataHash_data amountWei l1Block)).

Definition getAddressFromSig (signature : Bytes) (hash : Hash)
  : Address + error :=
  match SigToPub hash signature with
  | inr err => inr err
  | inl sigPublicKey => inl (PubkeyToAddress sigPublicKey)
  end.

Definition CreateSignedBid (amountWei l1Block : big.Int)
    (privateKey : PrivateKey) : SignedBid + error :=
  let hash := getDataHash amountWei l1Block in
  match Sign hash privateKey with
  | inr err => inr err
  | inl signature =>
      match getAddressFromSig signature hash with
      | inr err => inr err
      | inl address =>
          inl {| AmountWei := amountWei; L1Block := l1Block;
                 Address_ := address; Signature := signature |}
      end
  end.

Definition Verify (b : SignedBid) : bool :=
  let hash := getDataHash (AmountWei b) (L1Block b) in
  match SigToPub hash (Signature b) with
  | inr _ => false
  | inl sigPublicKey =>
      let signerAddress := PubkeyToAddress sigPublicKey in
      byte_list_eqb signerAddress (Address_ b)
  end.

End AuctionBid.

(* ================================================================== *)
(** ** package auction: the relay auction

    [auction.RelayAuction] and [auction.RelayRegistry] live in a file of
    the package that is not part of this development.  The listener only
    uses the constructor and two methods, which are taken as an
    interface; [StartAsync] returns a channel, and what arrives on it is
    an input of the listener's [select]. *)

Class RelayAuctionAPI : Type := {
  RelayRegistry : Type;
  RelayAuction : Type;
  (** [auction.NewRelayAuction(logger, registry)] *)
  NewRelayAuction : RelayRegistry -> RelayAuction;
  (** [(a *RelayAuction) SubmitBid(bid)]: the auction after the call *)
  RelayAuction_SubmitBid : RelayAuction -> SignedBid -> RelayAuction;
  (** [(a *RelayAuction) GetCurrentBid()] *)
  RelayAuction_GetCurrentBid : RelayAuction -> SignedBid
}.

(* ================================================================== *)
(** ** package listener *)

(** [type EthClient interface { BlockNumber(ctx) (uint64, error) }]: a
    call answers and leaves the client in a new state. *)
Class EthClient (C : Type) : Type := {
  BlockNumber : C -> (Z + error) * C
}.

(** [log/slog]: the records written so far, oldest first. *)
Inductive Level : Type := LevelDebug | LevelInfo | LevelError.

Record LogRecord : Type := { level : Level; message : string }.

(** A channel, by what has been sent on it (oldest first) and whether it
    has been closed. *)
Record Chan (A : Type) : Type := { sent : list A; closed : bool }.

Arguments sent {A} c.
Arguments closed {A} c.

(** [make(chan A)] *)
Definition make_chan (A : Type) : Chan A := {| sent := []; closed := false |}.

Definition chan_send {A : Type} (c : Chan A) (a : A) : Chan A :=
  {| sent := sent c ++ [a]; closed := closed c |}.

Definition chan_close {A : Type} (c : Chan A) : Chan A :=
  {| sent := sent c; closed := true |}.

(** The rejections of [SubmitBid], by the message of the [error] built
    with [fmt.Errorf]. *)
Definition NoActiveRound : error := "no auction in progress".
Definition WrongBlock : error := "bid is for a different block".

(** What the [select] of [listenForBlocks] receives. *)
Inductive BlockSelect : Type :=
| CtxDone      (* <-ctx.Done() *)
| TickerC.     (* <-ticker.C *)

(** What the [select] of [FacilitateRelayAuction] receives. *)
Inductive AuctionSelect : Type :=
| AuctionResult (bid : SignedBid)   (* bid := <-auctionResultChan *)
| Deadline.                         (* <-time.After(auctionPeriod + 1s) *)

(** What the [select] of [processNewBlocks] receives; a block signal
    comes with what the round it starts will receive. *)
Inductive ProcessSelect : Type :=
| ProcessCtxDone                                   (* <-ctx.Done() *)
| NewBlock (n : big.Int) (round : AuctionSelect).  (* <-l.NewBlockChan *)

Section ListenerDef.
Context {A : RelayAuctionAPI} {C : Type} {E : EthClient C}.

Record Listener : Type := {
  logger : list LogRecord;
  ethClient : C;
  relayRegistry : RelayRegistry;
  DoneChan : Chan unit;
  NewBlockChan : Chan big.Int;
  AuctionWonChan : Chan SignedBid;
  currentBlockNum : Z;
  currentAuction : option RelayAuction
}.

Definition with_logger (x : list LogRecord) (l : Listener) : Listener :=
  {| logger := x; ethClient := ethClient l;
     relayRegistry := relayRegistry l; DoneChan := DoneChan l;
     NewBlockChan := NewBlockChan l; AuctionWonChan := AuctionWonChan l;
     currentBlockNum := currentBlockNum l;
     currentAuction := currentAuction l |}.

Definition with_ethClient (x : C) (l : Listener) : Listener :=
  {| logger := logger l; ethClient := x;
     relayRegistry := relayRegistry l; DoneChan := DoneChan l;
     NewBlockChan := NewBlockChan l; AuctionWonChan := AuctionWonChan l;
     currentBlockNum := currentBlockNum l;
     currentAuction := currentAuction l |}.

Definition with_DoneChan (x : Chan unit) (l : Listener) : Listener :=
  {| logger := logger l; ethClient := ethClient l;
     relayRegistry := relayRegistry l; DoneChan := x;
     NewBlockChan := NewBlockChan l; AuctionWonChan := AuctionWonChan l;
     currentBlockNum := currentBlockNum l;
     currentAuction := currentAuction l |}.

Definition with_NewBlockChan (x : Chan big.Int) (l : Listener) : Listener :=
  {| logger := logger l; ethClient := ethClient l;
     relayRegistry := relayRegistry l; DoneChan := DoneChan l;
     NewBlockChan := x; AuctionWonChan := AuctionWonChan l;
     currentBlockNum := currentBlockNum l;
     currentAuction := currentAuction l |}.

Definition with_AuctionWonChan (x : Chan SignedBid) (l : Listener)
  : Listener :=
  {| logger := logger l; ethClient := ethClient l;
     relayRegistry := relayRegistry l; DoneChan := DoneChan l;
     NewBlockChan := NewBlockChan l; AuctionWonChan := x;
     currentBlockNum := currentBlockNum l;
     currentAuction := currentAuction l |}.

Definition with_currentBlockNum (x : Z) (l : Listener) : Listener :=
  {| logger := logger l; ethClient := ethClient l;
     relayRegistry := relayRegistry l; DoneChan := DoneChan l;
     NewBlockChan := NewBlockChan l; AuctionWonChan := AuctionWonChan l;
     currentBlockNum := x;
     currentAuction := currentAuction l |}.

Definition with_currentAuction (x : option RelayAuction) (l : Listener)
  : Listener :=
  {| logger := logger l; ethClient := ethClient l;
     relayRegistry := relayRegistry l; DoneChan := DoneChan l;
     NewBlockChan := NewBlockChan l; AuctionWonChan := AuctionWonChan l;
     currentBlockNum := currentBlockNum l;
     currentAuction := x |}.

(** [l.logger.Info(msg, ...)] and its siblings; the attributes of a
    record are left out. *)
Definition log (lv : Level) (msg : string) (l : Listener) : Listener :=
  with_logger (logger l ++ [{| level := lv; message := msg |}]) l.

Definition NewListener (client : C) (registry : RelayRegistry)
  : Listener :=
  {| logger := [];
     ethClient := client;
     relayRegistry := registry;
     DoneChan := make_chan unit;
     NewBlockChan := make_chan big.Int;
     AuctionWonChan := make_chan SignedBid;
     currentBlockNum := 0;
     currentAuction := None |}.

(** [Start] makes the two channels anew; the goroutines it spawns are
    [listenForBlocks] and [processNewBlocks] below. *)
Definition Start (l : Listener) : Listener :=
  with_NewBlockChan (make_chan big.Int)
    (with_DoneChan (make_chan unit) l).

Definition MustGetBlockNum (l : Listener) : Listener * ctl Z :=
  let (r, client) := BlockNumber (ethClient l) in
  let l := with_ethClient client l in
  match r with
  | inr err => (log LevelError "failed to get block number" l, OsExit 1)
  | inl blockNumber => (l, Normal (Uint64.wrap blockNumber))
  end.

(** The body of the loop of [listenForBlocks] after a tick. *)
Definition listenForBlocks_tick (l : Listener) : Listener * ctl unit :=
  match MustGetBlockNum l with
  | (l, OsExit code) => (l, OsExit code)
  | (l, GoPanic msg) => (l, GoPanic msg)
  | (l, Normal newBlockNum) =>
      if newBlockNum >? currentBlockNum l then
        let l := log LevelInfo
                   "new block. Signal to block processor will be sent" l in
        let l := with_NewBlockChan
                   (chan_send (NewBlockChan l)
                      (big.NewInt (Uint64.to_int64 (currentBlockNum l)))) l in
        (with_currentBlockNum newBlockNum l, Normal tt)
      else
        (log LevelDebug "no new block. Continuing..." l, Normal tt)
  end.

(** The deferred calls of [listenForBlocks], run when it returns. *)
Definition listenForBlocks_deferred (l : Listener) : Listener :=
  with_DoneChan (chan_close (DoneChan l))
    (with_NewBlockChan (chan_close (NewBlockChan l)) l).

(** [listenForBlocks] on the inputs [sel] of its [select]; [None] when
    the inputs end with the goroutine waiting in the [select]. *)
Fixpoint listenForBlocks (l : Listener) (sel : list BlockSelect)
  : Listener * option (ctl unit) :=
  match sel with
  | [] => (l, None)
  | CtxDone :: _ =>
      (listenForBlocks_deferred (log LevelInfo "listener stopped" l),
       Some (Normal tt))
  | TickerC :: sel =>
      match listenForBlocks_tick l with
      | (l, Normal _) => listenForBlocks l sel
      | (l, stop) => (l, Some stop)
      end
  end.

Definition FacilitateRelayAuction (l : Listener) (sel : AuctionSelect)
  : Listener * ctl unit :=
  let relayAuction := NewRelayAuction (relayRegistry l) in
  let l := with_currentAuction (Some relayAuction) l in
  match sel with
  | AuctionResult bid =>
      if byte_list_eqb (Address_ bid) zeroAddr then
        let l := log LevelInfo
          "relay auction ended with no winner. No action to take this block"
          l in
        (with_currentAuction None l, Normal tt)
      else
        let l := log LevelInfo "relay auction has been won" l in
        let l := with_AuctionWonChan (chan_send (AuctionWonChan l) bid) l in
        (with_currentAuction None l, Normal tt)
  | Deadline =>
      let l := log LevelError
                 "relay auction did not end before deadline" l in
      (l, OsExit 1)
  end.

(** [processNewBlocks] on the inputs [sel] of its [select]; [None] when
    the inputs end with the goroutine waiting in the [select]. *)
Fixpoint processNewBlocks (l : Listener) (sel : list ProcessSelect)
  : Listener * option (ctl unit) :=
  match sel with
  | [] => (l, None)
  | ProcessCtxDone :: _ =>
      (log LevelInfo "block processor stopped" l, Some (Normal tt))
  | NewBlock _ round :: sel =>
      let l := log LevelInfo "processing new block" l in
      match FacilitateRelayAuction l round with
      | (l, Normal _) => processNewBlocks l sel
      | (l, stop) => (l, Some stop)
      end
  end.

Definition SubmitBid (l : Listener) (bid : SignedBid)
  : Listener * ctl (option error) :=
  match currentAuction l with
  | None => (l, Normal (Some NoActiveRound))
  | Some auction =>
      match big.Uint64 (L1Block bid) with
      | None =>
          (l, GoPanic "invalid memory address or nil pointer dereference")
      | Some n =>
          if negb (n =? currentBlockNum l) then
            (l, Normal (Some WrongBlock))
          else
            (with_currentAuction
               (Some (RelayAuction_SubmitBid auction bid)) l,
             Normal None)
      end
  end.

Definition GetCurrentBid (l : Listener) : Listener * (SignedBid * bool) :=
  match currentAuction l with
  | None => (l, (zeroBid, false))
  | Some auction => (l, (RelayAuction_GetCurrentBid auction, true))
  end.

End ListenerDef.

Arguments Listener {A} C.

(* ================================================================== *)
(** ** encoding/hex and go-ethereum's hexutil *)

Definition hex_digit (n : N) : ascii :=
  match n with
  | 0 => "0" | 1 => "1" | 2 => "2" | 3 => "3" | 4 => "4" | 5 => "5"
  | 6 => "6" | 7 => "7" | 8 => "8" | 9 => "9" | 10 => "a" | 11 => "b"
  | 12 => "c" | 13 => "d" | 14 => "e" | _ => "f"
  end%N%char.

Definition hex_byte (b : byte) : string :=
  let n := Byte.to_N b in
  String (hex_digit (n / 16)) (String (hex_digit (n mod 16)) EmptyString).

(** [hex.Encode]: two lower-case digits per byte. *)
Fixpoint hex_Encode (bs : list byte) : string :=
  match bs with
  | [] => EmptyString
  | b :: bs => (hex_byte b ++ hex_Encode bs)%string
  end.

(** [hexutil.Bytes.MarshalText], also behind [Address.MarshalText]. *)
Definition hexutil_MarshalText (bs : list byte) : string :=
  ("0x" ++ hex_Encode bs)%string.

(** The value of a hex digit of either case. *)
Definition decodeNibble (c : ascii) : option N :=
  let n := N_of_ascii c in
  (if (48 <=? n) && (n <=? 57) then Some (n - 48)
   else if (65 <=? n) && (n <=? 70) then Some (n - 55)
   else if (97 <=? n) && (n <=? 102) then Some (n - 87)
   else None)%N.

(** [hex.Decode] of a text of even length. *)
Fixpoint hex_Decode (s : string) : option (list byte) :=
  match s with
  | EmptyString => Some []
  | String _ EmptyString => None
  | String a (String b s) =>
      match decodeNibble a, decodeNibble b, hex_Decode s with
      | Some x, Some y, Some bs =>
          match Byte.of_N (16 * x + y) with
          | Some v => Some (v :: bs)
          | None => None
          end
      | _, _, _ => None
      end
  end.

(** [hexutil.checkText(input, true)]: the digits after the prefix.  The
    empty text is let through; otherwise the prefix [0x] or [0X] is
    required and the digits must be of even number. *)
Definition checkText (input : string) : string + error :=
  match input with
  | EmptyString => inl EmptyString
  | String a (String b raw) =>
      if ((a =? "0") && ((b =? "x") || (b =? "X")))%char then
        if Nat.even (String.length raw) then inl raw
        else inr "hex string of odd length"
      else inr "hex string without 0x prefix"
  | String _ EmptyString => inr "hex string without 0x prefix"
  end.

(** [hexutil.Bytes.UnmarshalText] *)
Definition Bytes_UnmarshalText (input : string) : Bytes + error :=
  match checkText input with
  | inr err => inr err
  | inl raw =>
      match hex_Decode raw with
      | Some dec => inl dec
      | None => inr "invalid hex string"
      end
  end.

(** [hexutil.UnmarshalFixedText] into an array of [n] bytes. *)
Definition UnmarshalFixedText (input : string) (n : nat) : Bytes + error :=
  match checkText input with
  | inr err => inr err
  | inl raw =>
      if negb (Nat.eqb (Nat.div (String.length raw) 2) n) then
        inr "hex string has the wrong length"
      else
        match hex_Decode raw with
        | Some dec => inl dec
        | None => inr "invalid hex string"
        end
  end.

(* ================================================================== *)
(** ** encoding/json, as far as [SignedBid] goes *)

(** *** The text: tokens *)

Inductive token : Type :=
| TLBrace | TRBrace | TLBracket | TRBracket | TColon | TComma
| TString (raw : string)   (* the bytes between the quotes, escapes kept *)
| TNumber (lit : string)
| TTrue | TFalse | TNull.

Definition dquote : ascii := "034"%char.
Definition backslash : ascii := "092"%char.

Definition is_space (c : ascii) : bool :=
  let n := N_of_ascii c in
  ((n =? 32) || (n =? 9) || (n =? 13) || (n =? 10))%N.

Definition is_digit (c : ascii) : bool :=
  let n := N_of_ascii c in ((48 <=? n) && (n <=? 57))%N.

Definition is_hex (c : ascii) : bool :=
  match decodeNibble c with Some _ => true | None => false end.

(** The characters numbers and the literals [true], [false] and [null]
    are made of.  In a valid text each of these values ends at the first
    character outside this set, so a value is a longest run of them. *)
Definition is_word_char (c : ascii) : bool :=
  let n := N_of_ascii c in
  (is_digit c || (n =? 45) || (n =? 43) || (n =? 46)
   || ((65 <=? n) && (n <=? 90)) || ((97 <=? n) && (n <=? 122)))%N.

(** The states of the scanner inside a number. *)
Inductive numstate : Type :=
| NBegin | NNeg | NZero | NInt | NDot | NFrac | NE | NESign | NExp.

Definition num_step (st : numstate) (c : ascii) : option numstate :=
  let n := N_of_ascii c in
  let digit := is_digit c in
  let e := ((n =? 101) || (n =? 69))%N in
  match st with
  | NBegin =>
      if (n =? 45)%N then Some NNeg
      else if (n =? 48)%N then Some NZero
      else if digit then Some NInt else None
  | NNeg =>
      if (n =? 48)%N then Some NZero
      else if digit then Some NInt else None
  | NZero =>
      if (n =? 46)%N then Some NDot else if e then Some NE else None
  | NInt =>
      if digit then Some NInt
      else if (n =? 46)%N then Some NDot else if e then Some NE else None
  | NDot => if digit then Some NFrac else None
  | NFrac => if digit then Some NFrac else if e then Some NE else None
  | NE =>
      if ((n =? 43) || (n =? 45))%N then Some NESign
      else if digit then Some NExp else None
  | NESign => if digit then Some NExp else None
  | NExp => if digit then Some NExp else None
  end.

Fixpoint num_run (st : numstate) (s : string) : option numstate :=
  match s with
  | EmptyString => Some st
  | String c s =>
      match num_step st c with
      | Some st => num_run st s
      | None => None
      end
  end.

(** A number of the JSON grammar. *)
Definition is_number (s : string) : bool :=
  match num_run NBegin s with
  | Some (NZero | NInt | NFrac | NExp) => true
  | _ => false
  end.

Definition word_token (w : string) : option token :=
  if (w =? "true")%string then Some TTrue
  else if (w =? "false")%string then Some TFalse
  else if (w =? "null")%string then Some TNull
  else if is_number w then Some (TNumber w)
  else None.

(** Where the scanner is: between tokens, inside a number or literal, or
    inside a string.  In a string [esc] is 0 in plain text, 1 after a
    backslash, and 5, 4, 3 or 2 while four, three, two or one hex digits
    of a [\u] escape are still to come. *)
Inductive lexmode : Type :=
| MTop
| MWord (acc : string)
| MString (acc : string) (esc : nat).

Definition snoc (s : string) (c : ascii) : string :=
  (s ++ String c EmptyString)%string.

(** A character met between tokens. *)
Definition lex_top (c : ascii) : option (list token * lexmode) :=
  let n := N_of_ascii c in
  if is_space c then Some ([], MTop)
  else if is_word_char c then Some ([], MWord (String c EmptyString))
  else if (n =? 34)%N then Some ([], MString EmptyString 0)
  else if (n =? 123)%N then Some ([TLBrace], MTop)
  else if (n =? 125)%N then Some ([TRBrace], MTop)
  else if (n =? 91)%N then Some ([TLBracket], MTop)
  else if (n =? 93)%N then Some ([TRBracket], MTop)
  else if (n =? 58)%N then Some ([TColon], MTop)
  else if (n =? 44)%N then Some ([TComma], MTop)
  else None.

(** A character met inside a string: [inr tt] for the closing quote,
    [inl] the next escape state for a character of the string, [None]
    for one that may not stand there. *)
Definition lex_string_char (esc : nat) (c : ascii) : option (nat + unit) :=
  let n := N_of_ascii c in
  match esc with
  | O =>
      if (n =? 34)%N then Some (inr tt)
      else if (n =? 92)%N then Some (inl 1%nat)
      else if (n <? 32)%N then None
      else Some (inl O)
  | S O =>
      if ((n =? 34) || (n =? 92) || (n =? 47) || (n =? 98) || (n =? 102)
          || (n =? 110) || (n =? 114) || (n =? 116))%N then Some (inl O)
      else if (n =? 117)%N then Some (inl 5%nat)
      else None
  | S (S O) => if is_hex c then Some (inl O) else None
  | S (S k) => if is_hex c then Some (inl (S k)) else None
  end.

Fixpoint lex (m : lexmode) (s : string) : option (list token) :=
  match s with
  | EmptyString =>
      match m with
      | MTop => Some []
      | MWord acc => option_map (fun t => [t]) (word_token acc)
      | MString _ _ => None
      end
  | String c s =>
      match m with
      | MTop =>
          match lex_top c with
          | Some (ts, m) => option_map (app ts) (lex m s)
          | None => None
          end
      | MWord acc =>
          if is_word_char c then lex (MWord (snoc acc c)) s
          else
            match word_token acc, lex_top c with
            | Some t, Some (ts, m) =>
                option_map (fun r => t :: ts ++ r) (lex m s)
            | _, _ => None
            end
      | MString acc esc =>
          match lex_string_char esc c with
          | Some (inr _) => option_map (cons (TString acc)) (lex MTop s)
          | Some (inl esc) => lex (MString (snoc acc c) esc) s
          | None => None
          end
      end
  end.

(** *** The document *)

#[local] Unset Elimination Schemes.

Inductive json : Type :=
| JNull
| JBool (b : bool)
| JNumber (lit : string)
| JString (raw : string)
| JArray (elements : list json)
| JObject (members : list (string * json)).

#[local] Set Elimination Schemes.

(** An array or object that is still open, with what it holds so far
    (latest first) and, for an object, the key whose value is awaited. *)
Inductive frame : Type :=
| FArray (elements : list json)
| FObject (members : list (string * json)) (key : string).

(** What the parser expects next. *)
Inductive expect : Type :=
| EValue              (* a value *)
| EFirstElement       (* after [: a value or ] *)
| EFirstKey           (* after {: a key or } *)
| EKey                (* after , in an object: a key *)
| EColon              (* after a key: the colon *)
| EAfter (v : json).  (* after the value v: , or a closing bracket *)

(** The scanner refuses arrays and objects nested deeper than this. *)
Definition maxNestingDepth : N := 10000.

Definition may_nest (stack : list frame) : bool :=
  (N.of_nat (List.length stack) <? maxNestingDepth)%N.

(** A value starts with token [t]. *)
Definition parse_begin (stack : list frame) (t : token)
  : option (expect * list frame) :=
  match t with
  | TNull => Some (EAfter JNull, stack)
  | TTrue => Some (EAfter (JBool true), stack)
  | TFalse => Some (EAfter (JBool false), stack)
  | TNumber lit => Some (EAfter (JNumber lit), stack)
  | TString raw => Some (EAfter (JString raw), stack)
  | TLBracket =>
      if may_nest stack then Some (EFirstElement, FArray [] :: stack)
      else None
  | TLBrace =>
      if may_nest stack
      then Some (EFirstKey, FObject [] EmptyString :: stack)
      else None
  | TRBrace | TRBracket | TColon | TComma => None
  end.

Definition parse_step (e : expect) (stack : list frame) (t : token)
  : option (expect * list frame) :=
  match e with
  | EValue => parse_begin stack t
  | EFirstElement =>
      match t, stack with
      | TRBracket, FArray _ :: stack => Some (EAfter (JArray []), stack)
      | TRBracket, _ => None
      | _, _ => parse_begin stack t
      end
  | EFirstKey =>
      match t, stack with
      | TRBrace, FObject _ _ :: stack => Some (EAfter (JObject []), stack)
      | TString key, FObject ms _ :: stack =>
          Some (EColon, FObject ms key :: stack)
      | _, _ => None
      end
  | EKey =>
      match t, stack with
      | TString key, FObject ms _ :: stack =>
          Some (EColon, FObject ms key :: stack)
      | _, _ => None
      end
  | EColon =>
      match t with
      | TColon => Some (EValue, stack)
      | _ => None
      end
  | EAfter v =>
      match t, stack with
      | TComma, FArray vs :: stack => Some (EValue, FArray (v :: vs) :: stack)
      | TRBracket, FArray vs :: stack =>
          Some (EAfter (JArray (rev (v :: vs))), stack)
      | TComma, FObject ms key :: stack =>
          Some (EKey, FObject ((key, v) :: ms) EmptyString :: stack)
      | TRBrace, FObject ms key :: stack =>
          Some (EAfter (JObject (rev ((key, v) :: ms))), stack)
      | _, _ => None
      end
  end.

Fixpoint parse (e : expect) (stack : list frame) (ts : list token)
  : option json :=
  match ts with
  | [] =>
      match e, stack with
      | EAfter v, [] => Some v
      | _, _ => None
      end
  | t :: ts =>
      match parse_step e stack t with
      | Some (e, stack) => parse e stack ts
      | None => None
      end
  end.

(** The document a text denotes, if it is valid JSON. *)
Definition json_parse (data : string) : option json :=
  match lex MTop data with
  | Some ts => parse EValue [] ts
  | None => None
  end.

(** *** Keys *)

Definition hex4 (a b c d : ascii) : option N :=
  match decodeNibble a, decodeNibble b, decodeNibble c, decodeNibble d with
  | Some x, Some y, Some z, Some w => Some (((x * 16 + y) * 16 + z) * 16 + w)%N
  | _, _, _, _ => None
  end.

Definition byte_char (n : N) : ascii := ascii_of_N (n mod 256).

(** [utf8.AppendRune] *)
Definition utf8_encode (r : N) : string :=
  (if r <? 128 then String (byte_char r) EmptyString
   else if r <? 2048 then
     String (byte_char (192 + r / 64))
       (String (byte_char (128 + r mod 64)) EmptyString)
   else if r <? 65536 then
     String (byte_char (224 + r / 4096))
       (String (byte_char (128 + (r / 64) mod 64))
          (String (byte_char (128 + r mod 64)) EmptyString))
   else
     String (byte_char (240 + r / 262144))
       (String (byte_char (128 + (r / 4096) mod 64))
          (String (byte_char (128 + (r / 64) mod 64))
             (String (byte_char (128 + r mod 64)) EmptyString))))%N.

Definition ReplacementChar : N := 65533.

Definition is_high_surrogate (r : N) : bool := ((55296 <=? r) && (r <? 56320))%N.
Definition is_low_surrogate (r : N) : bool := ((56320 <=? r) && (r <? 57344))%N.

(** The character an escape [\c] stands for. *)
Definition simple_escape (c : ascii) : ascii :=
  let n := N_of_ascii c in
  (if n =? 98 then "008" else if n =? 102 then "012"
   else if n =? 110 then "010" else if n =? 114 then "013"
   else if n =? 116 then "009" else c)%N%char.

(** [unquote] of the bytes between the quotes of a string token: escapes
    are resolved, a [\u] escape to the UTF-8 form of its code point, two
    escapes that form a surrogate pair to the code point of the pair and
    a lone surrogate to U+FFFD.  (Go also turns bytes that are not valid
    UTF-8 into U+FFFD; they are kept here.  Neither form occurs in a
    field name or folds to one.) *)
Fixpoint unquote (s : string) : string :=
  match s with
  | EmptyString => EmptyString
  | String c rest =>
      if negb (N_of_ascii c =? 92)%N then String c (unquote rest)
      else
        match rest with
        | EmptyString => EmptyString
        | String e rest' =>
            if negb (N_of_ascii e =? 117)%N
            then String (simple_escape e) (unquote rest')
            else
              match rest' with
              | String h1 (String h2 (String h3 (String h4 rest''))) =>
                  match hex4 h1 h2 h3 h4 with
                  | None => EmptyString
                  | Some r =>
                      if is_high_surrogate r then
                        match rest'' with
                        | String b (String u (String l1 (String l2
                            (String l3 (String l4 rest3))))) =>
                            match
                              (if ((N_of_ascii b =? 92)
                                   && (N_of_ascii u =? 117))%N
                               then hex4 l1 l2 l3 l4 else None)
                            with
                            | Some r2 =>
                                if is_low_surrogate r2 then
                                  (utf8_encode
                                     (65536 + (r - 55296) * 1024
                                      + (r2 - 56320))
                                   ++ unquote rest3)%string
                                else
                                  (utf8_encode ReplacementChar
                                   ++ unquote rest'')%string
                            | None =>
                                (utf8_encode ReplacementChar
                                 ++ unquote rest'')%string
                            end
                        | _ =>
                            (utf8_encode ReplacementChar
                             ++ unquote rest'')%string
                        end
                      else if is_low_surrogate r then
                        (utf8_encode ReplacementChar
                         ++ unquote rest'')%string
                      else (utf8_encode r ++ unquote rest'')%string
                  end
              | _ => EmptyString
              end
        end
  end.

(** [foldName]: the form under which keys and field names are compared
    when no field has the key as its exact name.  ASCII letters go to
    upper case; the two other characters that fold to an ASCII letter,
    the Kelvin sign U+212A and the long s U+017F, go to [K] and [S]. *)
Fixpoint foldName (s : string) : string :=
  match s with
  | EmptyString => EmptyString
  | String c rest =>
      let n := N_of_ascii c in
      let plain :=
        String (if ((97 <=? n) && (n <=? 122))%N
                then ascii_of_N (n - 32) else c) (foldName rest) in
      match rest with
      | String c2 rest2 =>
          if ((n =? 197) && (N_of_ascii c2 =? 191))%N
          then String "S"%char (foldName rest2)
          else
            match rest2 with
            | String c3 rest3 =>
                if ((n =? 226) && (N_of_ascii c2 =? 132)
                    && (N_of_ascii c3 =? 170))%N
                then String "K"%char (foldName rest3)
                else plain
            | EmptyString => plain
            end
      | EmptyString => plain
      end
  end.

(** The fields of [SignedBid], with their [json] tags. *)
Inductive field : Type := FAmountWei | FL1Block | FAddress | FSignature.

Definition field_name (f : field) : string :=
  match f with
  | FAmountWei => "amountWei"
  | FL1Block => "l1Block"
  | FAddress => "address"
  | FSignature => "signature"
  end.

(** The field a key of the document goes to: the field of that name, or
    else the field whose name is the key under [foldName]. *)
Definition field_of_key (key : string) : option field :=
  let named f := ((key =? field_name f)
                  || (foldName key =? foldName (field_name f)))%string in
  if named FAmountWei then Some FAmountWei
  else if named FL1Block then Some FL1Block
  else if named FAddress then Some FAddress
  else if named FSignature then Some FSignature
  else None.

(** *** Values into fields *)

(** A value into a [*big.Int] field: [null] makes the pointer nil, any
    other value goes as its text to [UnmarshalJSON], which takes an
    integer in decimal digits with an optional minus sign. *)
Definition decode_bigInt (v : json) : big.Int + error :=
  match v with
  | JNull => inl None
  | JNumber lit =>
      match NilZero.int_of_string lit with
      | Some d => inl (Some (Z.of_int d))
      | None => inr "math/big: cannot unmarshal into a *big.Int"
      end
  | _ => inr "math/big: cannot unmarshal into a *big.Int"
  end.

(** A value into the [common.Address] field: [UnmarshalFixedJSON]. *)
Definition decode_Address (v : json) : Address + error :=
  match v with
  | JString raw => UnmarshalFixedText raw AddressLength
  | _ => inr "json: cannot unmarshal non-string into common.Address"
  end.

(** A value into the [hexutil.Bytes] field: [UnmarshalJSON]. *)
Definition decode_Bytes (v : json) : Bytes + error :=
  match v with
  | JString raw => Bytes_UnmarshalText raw
  | _ => inr "json: cannot unmarshal non-string into hexutil.Bytes"
  end.

Definition decode_field (f : field) (v : json) (bid : SignedBid)
  : SignedBid + error :=
  match f with
  | FAmountWei =>
      match decode_bigInt v with
      | inl x => inl {| AmountWei := x; L1Block := L1Block bid;
                        Address_ := Address_ bid;
                        Signature := Signature bid |}
      | inr err => inr err
      end
  | FL1Block =>
      match decode_bigInt v with
      | inl x => inl {| AmountWei := AmountWei bid; L1Block := x;
                        Address_ := Address_ bid;
                        Signature := Signature bid |}
      | inr err => inr err
      end
  | FAddress =>
      match decode_Address v with
      | inl x => inl {| AmountWei := AmountWei bid; L1Block := L1Block bid;
                        Address_ := x; Signature := Signature bid |}
      | inr err => inr err
      end
  | FSignature =>
      match decode_Bytes v with
      | inl x => inl {| AmountWei := AmountWei bid; L1Block := L1Block bid;
                        Address_ := Address_ bid; Signature := x |}
      | inr err => inr err
      end
  end.

(** The members of the object, in order: a member whose key names no
    field is skipped, the others are stored; the first value that cannot
    be stored ends the decoding with its error. *)
Fixpoint decode_members (ms : list (string * json)) (bid : SignedBid)
  : SignedBid + error :=
  match ms with
  | [] => inl bid
  | (key, v) :: ms =>
      match field_of_key (unquote key) with
      | None => decode_members ms bid
      | Some f =>
          match decode_field f v bid with
          | inl bid => decode_members ms bid
          | inr err => inr err
          end
      end
  end.

(** [json.Unmarshal(data, &bid)] for a zero [bid]: the text must be valid
    JSON; [null] leaves the bid as it is, an object is stored member by
    member, any other value is a type error. *)
Definition json_Unmarshal (data : string) : SignedBid + error :=
  match json_parse data with
  | None => inr "invalid character or unexpected end of JSON input"
  | Some JNull => inl zeroBid
  | Some (JObject ms) => decode_members ms zeroBid
  | Some _ => inr "json: cannot unmarshal into auction.SignedBid"
  end.

(** *** A bid into text *)

(** [MarshalJSON] of a [*big.Int] field: [null] for nil, else the
    decimal text. *)
Definition big_Int_MarshalJSON (x : big.Int) : string :=
  match x with
  | None => "null"
  | Some _ => big.String x
  end.

(** A text between quotes; the texts quoted here need no escapes. *)
Definition json_quote (s : string) : string :=
  String dquote (s ++ String dquote EmptyString).

(** [json.Marshal(bid)]: the fields in the order of the struct, under
    their tags.  It has no way to fail on a [SignedBid]. *)
Definition json_Marshal (bid : SignedBid) : string + error :=
  inl ("{" ++ json_quote "amountWei" ++ ":"
           ++ big_Int_MarshalJSON (AmountWei bid)
       ++ "," ++ json_quote "l1Block" ++ ":"
           ++ big_Int_MarshalJSON (L1Block bid)
       ++ "," ++ json_quote "address" ++ ":"
           ++ json_quote (hexutil_MarshalText (Address_ bid))
       ++ "," ++ json_quote "signature" ++ ":"
           ++ json_quote (hexutil_MarshalText (Signature bid))
       ++ "}")%string.

(* ================================================================== *)
(** ** package auction: the wire codec *)

(** [log.Fatalf] ends the process with status 1. *)
Definition EncodeSignedBid (bid : SignedBid) : ctl string :=
  match json_Marshal bid with
  | inr _ => OsExit 1
  | inl jsonData => Normal jsonData
  end.

Definition DecodeSignedBid (jsonData : string) : SignedBid + error :=
  match json_Unmarshal jsonData with
  | inr err => inr err
  | inl bid => inl bid
  end.

(* ================================================================== *)
(** ** The block monitor, in the words of its description *)

(** The heights carried by the signals of a monitor that last observed
    [last] and then polls [polls]: a poll strictly above the last
    observed height gives one signal, for the height held before it. *)
Fixpoint new_block_events (last : Z) (polls : list Z) : list Z :=
  match polls with
  | [] => []
  | h :: polls =>
      if h >? last then last :: new_block_events h polls
      else new_block_events last polls
  end.

(** The height held after the polls. *)
Fixpoint last_observed (last : Z) (polls : list Z) : Z :=
  match polls with
  | [] => last
  | h :: polls => last_observed (if h >? last then h else last) polls
  end.

(** The next calls of [BlockNumber] on client [c] succeed and return
    [hs], in order. *)
Fixpoint answers {C : Type} {E : EthClient C} (c : C) (hs : list Z) : Prop :=
  match hs with
  | [] => True
  | h :: hs =>
      fst (BlockNumber c) = inl h /\ answers (snd (BlockNumber c)) hs
  end.

(* ================================================================== *)
(** ** Instances on which the definitions run *)

(** A height source that answers from a script and is unreachable once
    the script is used up. *)
#[export] Instance ScriptedClient : EthClient (list (Z + error)) := {
  BlockNumber c :=
    match c with
    | [] => (inr "connection refused", [])
    | r :: c => (r, c)
    end
}.

Definition heights (hs : list Z) : list (Z + error) := map inl hs.

(** Byte strings cut or zero-padded to a length. *)
Definition fit (n : nat) (bs : list byte) : list byte :=
  firstn n (bs ++ repeat x00 n).

(** A stand-in for the signature scheme with the interface of [Crypto]:
    a key is 32 bytes, the signature of a digest is the key, the digest
    and a recovery byte, and recovery reads the key back when the digest
    matches.  It has none of the security of the real scheme and is only
    used to run the definitions. *)
#[export] Instance ModelCrypto : Crypto := {
  PrivateKey := list byte;
  PublicKey := list byte;
  Keccak256Hash data := fit HashLength data;
  Sign h k := inl (fit 32 k ++ fit 32 h ++ [x00]);
  SigToPub h sig :=
    if (Nat.eqb (List.length sig) SignatureLength
        && byte_list_eqb (firstn 32 (skipn 32 sig)) (fit 32 h))%bool
    then inl (firstn 32 sig)
    else inr "recovery failed";
  PubkeyToAddress pub := fit AddressLength pub;
  PrivateKey_Public k := fit 32 k
}.

(** Modelled from the spec: the auction round behind [RelayAuction],
    whose source file is not part of this development.  The round keeps
    the best bid; a submitted bid is considered when its signature
    verifies and its bidder is in the registry, and replaces the best bid
    when there is none yet or its amount is strictly greater. *)
Record SpecRound {K : Crypto} : Type := {
  isEligible : Address -> bool;
  bestBid : option SignedBid
}.

Definition amount_gt (b best : SignedBid) : bool :=
  match AmountWei b, AmountWei best with
  | Some x, Some y => x >? y
  | _, _ => false
  end.

(** Modelled from the spec: [submitBid] of the round, after the checks
    the listener has already made. *)
Definition SpecRound_submit {K : Crypto} (r : SpecRound) (b : SignedBid)
  : SpecRound :=
  if (Verify b && isEligible r (Address_ b))%bool then
    match bestBid r with
    | None => {| isEligible := isEligible r; bestBid := Some b |}
    | Some best =>
        if amount_gt b best
        then {| isEligible := isEligible r; bestBid := Some b |}
        else r
    end
  else r.

(** Modelled from the spec: [currentBid] of the round, with the zero bid
    standing for "none yet". *)
Definition SpecRound_current {K : Crypto} (r : SpecRound) : SignedBid :=
  match bestBid r with
  | None => zeroBid
  | Some b => b
  end.

#[export] Instance SpecRelayAuction {K : Crypto} : RelayAuctionAPI := {
  RelayRegistry := Address -> bool;
  RelayAuction := SpecRound;
  NewRelayAuction registry := {| isEligible := registry; bestBid := None |};
  RelayAuction_SubmitBid := SpecRound_submit;
  RelayAuction_GetCurrentBid := SpecRound_current
}.

(** A registry that knows nobody, and a fresh listener polling a script. *)
Definition nobody : Address -> bool := fun _ => false.

Definition scripted_listener (script : list (Z + error))
  : Listener (A := SpecRelayAuction (K := ModelCrypto)) (list (Z + error)) :=
  NewListener script nobody.

(** A bid with a bidder, as a round would deliver it. *)
Definition sample_winner : SignedBid :=
  {| AmountWei := Some 5; L1Block := Some 101;
     Address_ := repeat x01 AddressLength; Signature := [] |}.

(* ================================================================== *)
(** ** Texts of an encoded bid *)

(** Every character of the text satisfies [p]. *)
Fixpoint string_forall (p : ascii -> bool) (s : string) : bool :=
  match s with
  | EmptyString => true
  | String c s => p c && string_forall p s
  end.

(** A character that stands for itself inside a string of a JSON text. *)
Definition is_plain (c : ascii) : bool :=
  match lex_string_char 0 c with
  | Some (inl O) => true
  | _ => false
  end.

(** The token and the document a [big.Int] field is written as. *)
Definition bigInt_token (x : big.Int) : token :=
  match x with
  | None => TNull
  | Some _ => TNumber (big.String x)
  end.

Definition bigInt_json (x : big.Int) : json :=
  match x with
  | None => JNull
  | Some _ => JNumber (big.String x)
  end.

(* ================================================================== *)
(** ** What a field takes, by the shape of the value *)

(** Decimal digits, at least one, after an optional minus sign. *)
Definition digits (s : string) : bool :=
  match s with
  | EmptyString => false
  | String _ _ => string_forall is_digit s
  end.

Definition integer_text (s : string) : bool :=
  match s with
  | EmptyString => false
  | String c rest => if (c =? "-")%char then digits rest else digits s
  end.

(** The text after a prefix [0x] or [0X]. *)
Definition after_0x (input : string) : option string :=
  match input with
  | String a (String b raw) =>
      if ((a =? "0") && ((b =? "x") || (b =? "X")))%char then Some raw
      else None
  | _ => None
  end.

(** The prefix and exactly 40 hex digits. *)
Definition address_text (input : string) : bool :=
  match after_0x input with
  | Some raw =>
      Nat.eqb (String.length raw) (2 * AddressLength)
      && string_forall is_hex raw
  | None => false
  end.

(** Nothing at all, or the prefix and hex digits of even number. *)
Definition bytes_text (input : string) : bool :=
  match input with
  | EmptyString => true
  | String _ _ =>
      match after_0x input with
      | Some raw => Nat.even (String.length raw) && string_forall is_hex raw
      | None => false
      end
  end.

(** The values a field takes: [null] or an integer for the amount and
    the block, a string of 20 bytes in hex for the address, a string of
    any bytes in hex for the signature. *)
Definition field_takes (f : field) (v : json) : bool :=
  match f, v with
  | (FAmountWei | FL1Block), JNull => true
  | (FAmountWei | FL1Block), JNumber lit => integer_text lit
  | FAddress, JString raw => address_text raw
  | FSignature, JString raw => bytes_text raw
  | _, _ => false
  end.

(** Every member of the object that goes to a field holds a value the
    field takes. *)
Definition members_taken (ms : list (string * json)) : Prop :=
  Forall (fun m => forall f, field_of_key (unquote (fst m)) = Some f ->
                             field_takes f (snd m) = true) ms.

(** No member of the object goes to field [f]. *)
Definition field_missing (f : field) (ms : list (string * json)) : Prop :=
  Forall (fun m => field_of_key (unquote (fst m)) <> Some f) ms.

(** Field [f] of the bid holds the zero value of its type. *)
Definition field_zero (f : field) (bid : SignedBid) : Prop :=
  match f with
  | FAmountWei => AmountWei bid = None
  | FL1Block => L1Block bid = None
  | FAddress => Address_ bid = zeroAddr
  | FSignature => Signature bid = []
  end.

(* ================================================================== *)
(** ** package auction: the signer that may not fail *)


(* ================================================================== *)
(** ** What a run of the block processor hands on *)

(** The bids of the rounds that deliver a bidder, up to the first input
    that ends the run. *)
Fixpoint forwarded (sel : list ProcessSelect) : list SignedBid :=
  match sel with
  | NewBlock _ (AuctionResult bid) :: sel =>
      if byte_list_eqb (Address_ bid) zeroAddr then forwarded sel
      else bid :: forwarded sel
  | _ => []
  end.

(** A listener in the middle of the round for block 10. *)
Definition live_round : SpecRound (K := ModelCrypto) :=
  {| isEligible := nobody; bestBid := None |}.

Definition live_listener
  : Listener (A := SpecRelayAuction (K := ModelCrypto)) (list (Z + error)) :=
  with_currentAuction (Some live_round)
    (with_currentBlockNum 10 (scripted_listener [])).

(* ================================================================== *)
(** * Properties *)

(* ================================================================== *)
(** ** The bid digest *)

Example getDataHash_data_1_23 : getDataHash_data (Some 1) (Some 23) = "123".
Proof. reflexivity. Qed.

Example getDataHash_data_nil : getDataHash_data None (Some 7) = "<nil>7".
Proof. reflexivity. Qed.

(** C1.  The digest is not injective: the bids (amount 1, block 23) and
    (amount 12, block 3) are different pairs, yet both hash the three
    bytes "123", so their digests are equal whatever the hash function
    is. *)
Theorem getDataHash_collision :
  (Some 1, Some 23) <> (Some 12, Some 3 : big.Int)
  /\ getDataHash_data (Some 1) (Some 23) = "123"
  /\ getDataHash_data (Some 12) (Some 3) = "123"
  /\ forall K : Crypto,
       @getDataHash K (Some 1) (Some 23) = @getDataHash K (Some 12) (Some 3).
Proof.
  repeat split; try reflexivity.
  intro H; discriminate H.
Qed.

(* ================================================================== *)
(** ** The block monitor *)

Section Monitor.
Context {A : RelayAuctionAPI} {C : Type} {E : EthClient C}.

Lemma to_int64_small : forall x,
  0 <= x < 2 ^ 63 -> Uint64.to_int64 x = x.
Proof.
  intros x Hx. unfold Uint64.to_int64, Uint64.wrap, Uint64.modulus.
  rewrite Z.mod_small by lia.
  destruct (x <? 2 ^ 63) eqn:Hlt; [reflexivity|].
  apply Z.ltb_ge in Hlt. lia.
Qed.

(** One poll that reads a height above the last observed one: one
    signal for the height held before, then the new height is held. *)
Lemma listenForBlocks_tick_new (l : Listener C) h c :
  BlockNumber (ethClient l) = (inl h, c) ->
  Uint64.wrap h > currentBlockNum l ->
  exists l',
    listenForBlocks_tick l = (l', Normal tt)
    /\ sent (NewBlockChan l')
       = sent (NewBlockChan l)
           ++ [big.NewInt (Uint64.to_int64 (currentBlockNum l))]
    /\ currentBlockNum l' = Uint64.wrap h
    /\ ethClient l' = c
    /\ currentAuction l' = currentAuction l
    /\ AuctionWonChan l' = AuctionWonChan l.
Proof.
  intros Hc Hgt. unfold listenForBlocks_tick, MustGetBlockNum.
  rewrite Hc. cbn [ethClient with_ethClient currentBlockNum].
  apply Z.gtb_gt in Hgt. rewrite Hgt.
  eexists. split; [reflexivity|]. cbn. repeat split.
Qed.

(** One poll that reads no higher height: no signal, same height. *)
Lemma listenForBlocks_tick_same (l : Listener C) h c :
  BlockNumber (ethClient l) = (inl h, c) ->
  Uint64.wrap h <= currentBlockNum l ->
  exists l',
    listenForBlocks_tick l = (l', Normal tt)
    /\ sent (NewBlockChan l') = sent (NewBlockChan l)
    /\ currentBlockNum l' = currentBlockNum l
    /\ ethClient l' = c
    /\ currentAuction l' = currentAuction l
    /\ AuctionWonChan l' = AuctionWonChan l.
Proof.
  intros Hc Hle. unfold listenForBlocks_tick, MustGetBlockNum.
  rewrite Hc. cbn [ethClient with_ethClient currentBlockNum].
  destruct (Uint64.wrap h >? currentBlockNum l) eqn:Hgt.
  - apply Z.gtb_gt in Hgt. lia.
  - eexists. split; [reflexivity|]. cbn. repeat split.
Qed.

(** A run of successful polls, signal by signal. *)
Lemma listenForBlocks_polls : forall hs (l : Listener C),
  answers (ethClient l) hs ->
  let r := listenForBlocks l (repeat TickerC (List.length hs)) in
  snd r = None
  /\ sent (NewBlockChan (fst r))
     = sent (NewBlockChan l)
         ++ map (fun h => big.NewInt (Uint64.to_int64 h))
              (new_block_events (currentBlockNum l) (map Uint64.wrap hs))
  /\ currentBlockNum (fst r)
     = last_observed (currentBlockNum l) (map Uint64.wrap hs).
Proof.
  induction hs as [|h hs IH]; intros l Hans.
  - cbn. rewrite List.app_nil_r. repeat split.
  - destruct Hans as [Hh Hans].
    destruct (BlockNumber (ethClient l)) as [r c] eqn:Hc.
    cbn [fst snd] in Hh, Hans. subst r.
    cbn [List.length repeat listenForBlocks map new_block_events
         last_observed].
    destruct (Uint64.wrap h >? currentBlockNum l) eqn:Hgt.
    + destruct (listenForBlocks_tick_new l h c Hc) as
          (l' & Ht & Hs & Hn & Hcl & _).
      { apply Z.gtb_gt. exact Hgt. }
      rewrite Ht. subst c.
      specialize (IH l' Hans). cbv zeta in IH.
      destruct IH as (IH1 & IH2 & IH3).
      rewrite IH1, IH2, IH3, Hs, Hn. cbn [map].
      rewrite <- List.app_assoc. repeat split.
    + destruct (listenForBlocks_tick_same l h c Hc) as
          (l' & Ht & Hs & Hn & Hcl & _).
      { destruct (Z.gtb_spec (Uint64.wrap h) (currentBlockNum l));
          [discriminate | lia]. }
      rewrite Ht. subst c.
      specialize (IH l' Hans). cbv zeta in IH.
      destruct IH as (IH1 & IH2 & IH3).
      rewrite IH1, IH2, IH3, Hs, Hn. repeat split.
Qed.

End Monitor.

Example new_block_events_from_100 :
  new_block_events 100 [100; 100; 101; 101; 103] = [100; 101].
Proof. reflexivity. Qed.

Example new_block_events_from_0 :
  new_block_events 0 [100; 100; 101; 101; 103] = [0; 100; 101].
Proof. reflexivity. Qed.

Section MonitorClaims.
Context {A : RelayAuctionAPI} {C : Type} {E : EthClient C}.

(** C2 (amended).  While the height source answers, every poll that
    reads a height strictly above the last observed one sends exactly
    one signal, carrying the height held before the poll passed through
    [int64] (the height itself below 2^63), and then holds the height
    read; other polls send nothing.  A monitor that holds 100 and polls
    100, 100, 101, 101, 103 sends exactly the two signals 100 and 101;
    a monitor that holds 0, as a new listener does, sends 0 first. *)
Theorem listenForBlocks_signals (l : Listener C) (hs : list Z) :
  answers (ethClient l) hs ->
  let r := listenForBlocks l (repeat TickerC (List.length hs)) in
  let polls := map Uint64.wrap hs in
  snd r = None
  /\ sent (NewBlockChan (fst r))
     = sent (NewBlockChan l)
         ++ map (fun h => big.NewInt (Uint64.to_int64 h))
              (new_block_events (currentBlockNum l) polls)
  /\ currentBlockNum (fst r) = last_observed (currentBlockNum l) polls
  /\ (forall x, 0 <= x < 2 ^ 63 ->
        big.NewInt (Uint64.to_int64 x) = Some x)
  /\ (hs = [100; 100; 101; 101; 103] -> currentBlockNum l = 100 ->
        sent (NewBlockChan (fst r))
        = sent (NewBlockChan l) ++ [Some 100; Some 101])
  /\ (hs = [100; 100; 101; 101; 103] -> currentBlockNum l = 0 ->
        sent (NewBlockChan (fst r))
        = sent (NewBlockChan l) ++ [Some 0; Some 100; Some 101]).
Proof.
  intros Hans r polls.
  destruct (listenForBlocks_polls hs l Hans) as (H1 & H2 & H3).
  fold r in H1, H2, H3. fold polls in H2, H3.
  split; [exact H1|]. split; [exact H2|]. split; [exact H3|].
  split; [|split].
  - intros x Hx. unfold big.NewInt. now rewrite to_int64_small.
  - intros Hhs Hcur. rewrite H2. subst polls. rewrite Hhs, Hcur.
    reflexivity.
  - intros Hhs Hcur. rewrite H2. subst polls. rewrite Hhs, Hcur.
    reflexivity.
Qed.

(** A run that has not ended goes on with the inputs that follow. *)
Lemma listenForBlocks_app (pre sel : list BlockSelect) :
  forall (l l1 : Listener C),
    listenForBlocks l pre = (l1, None) ->
    listenForBlocks l (pre ++ sel) = listenForBlocks l1 sel.
Proof.
  induction pre as [|x pre IH]; intros l l1 H.
  - cbn in H. inversion H. reflexivity.
  - destruct x; cbn [listenForBlocks app] in *; [discriminate|].
    destruct (listenForBlocks_tick l) as [l' [u|code|msg]];
      try discriminate.
    now apply IH.
Qed.

(** C8 (amended).  When the height source fails at a poll, at any point
    of a run, the loop logs the failure and ends the whole process with
    exit status 1: the source is not asked again, no signal is sent, the
    channels stay open and the inputs that follow are never read. *)
Theorem listenForBlocks_unreachable (l l1 : Listener C)
    (pre sel : list BlockSelect) (e : error) (c : C) :
  listenForBlocks l pre = (l1, None) ->
  BlockNumber (ethClient l1) = (inr e, c) ->
  listenForBlocks l (pre ++ TickerC :: sel)
  = (log LevelError "failed to get block number" (with_ethClient c l1),
     Some (OsExit 1)).
Proof.
  intros Hpre Hc. rewrite (listenForBlocks_app pre _ l l1 Hpre).
  cbn [listenForBlocks].
  unfold listenForBlocks_tick, MustGetBlockNum. rewrite Hc. reflexivity.
Qed.

(** A round whose result arrives first returns, and the processor goes
    on to its next input. *)
Lemma processNewBlocks_result (l : Listener C) n bid sel :
  exists l',
    FacilitateRelayAuction (log LevelInfo "processing new block" l)
      (AuctionResult bid) = (l', Normal tt)
    /\ currentAuction l' = None
    /\ processNewBlocks l (NewBlock n (AuctionResult bid) :: sel)
       = processNewBlocks l' sel.
Proof.
  cbn [processNewBlocks]. unfold FacilitateRelayAuction.
  destruct (byte_list_eqb (Address_ bid) zeroAddr);
    eexists; repeat split.
Qed.

Lemma processNewBlocks_app (pre sel : list ProcessSelect) :
  forall (l l1 : Listener C),
    processNewBlocks l pre = (l1, None) ->
    processNewBlocks l (pre ++ sel) = processNewBlocks l1 sel.
Proof.
  induction pre as [|x pre IH]; intros l l1 H.
  - cbn in H. inversion H. reflexivity.
  - destruct x as [|n round]; cbn [processNewBlocks app] in *;
      [discriminate|].
    destruct (FacilitateRelayAuction _ round) as [l' [u|code|msg]];
      try discriminate.
    now apply IH.
Qed.

(** C9 (amended).  When the watchdog fires before the result of a round,
    after any rounds that ran to their end, the orchestrator logs the
    error and ends the whole process with exit status 1; the auction of
    that round is still in the slot and no later block signal is read. *)
Theorem processNewBlocks_deadline (l l1 : Listener C)
    (pre sel : list ProcessSelect) (n : big.Int) :
  processNewBlocks l pre = (l1, None) ->
  processNewBlocks l (pre ++ NewBlock n Deadline :: sel)
  = (log LevelError "relay auction did not end before deadline"
       (with_currentAuction (Some (NewRelayAuction (relayRegistry l1)))
          (log LevelInfo "processing new block" l1)),
     Some (OsExit 1)).
Proof.
  intros Hpre. rewrite (processNewBlocks_app pre _ l l1 Hpre).
  reflexivity.
Qed.

(** C10.  [GetCurrentBid] answers not-found with the zero bid exactly
    when the auction slot is empty, and found with the current bid of
    the live auction otherwise; the listener is left as it was. *)
Theorem GetCurrentBid_found (l : Listener C) :
  fst (GetCurrentBid l) = l
  /\ (snd (snd (GetCurrentBid l)) = false <-> currentAuction l = None)
  /\ match currentAuction l with
     | None => snd (GetCurrentBid l) = (zeroBid, false)
     | Some auction =>
         snd (GetCurrentBid l)
         = (RelayAuction_GetCurrentBid auction, true)
     end.
Proof.
  unfold GetCurrentBid.
  destruct (currentAuction l) as [auction|]; cbn; repeat split;
    try discriminate; auto.
Qed.

(** With no auction in the slot a bid is refused and nothing changes. *)
Lemma SubmitBid_no_round (l : Listener C) bid :
  currentAuction l = None ->
  SubmitBid l bid = (l, Normal (Some NoActiveRound)).
Proof. intros H. unfold SubmitBid. now rewrite H. Qed.

(** After a round has returned, a bid is refused. *)
Lemma SubmitBid_after_round (l l' : Listener C) sel bid :
  FacilitateRelayAuction l sel = (l', Normal tt) ->
  SubmitBid l' bid = (l', Normal (Some NoActiveRound)).
Proof.
  intros H. apply SubmitBid_no_round.
  unfold FacilitateRelayAuction in H.
  destruct sel as [b|]; [|discriminate].
  destruct (byte_list_eqb (Address_ b) zeroAddr);
    inversion H; reflexivity.
Qed.

(** A bid whose block, as a [uint64], is not the current block number is
    refused and nothing changes. *)
Lemma SubmitBid_wrong_block (l : Listener C) auction bid n :
  currentAuction l = Some auction ->
  L1Block bid = Some n ->
  Uint64.wrap (Z.abs n) <> currentBlockNum l ->
  SubmitBid l bid = (l, Normal (Some WrongBlock)).
Proof.
  intros Ha Hn Hne. unfold SubmitBid. rewrite Ha, Hn. cbn.
  apply Z.eqb_neq in Hne. now rewrite Hne.
Qed.

(** Whenever [SubmitBid] returns an error, the listener (and with it
    the auction in the slot) is unchanged. *)
Lemma SubmitBid_rejection_keeps_state (l l' : Listener C) bid err :
  SubmitBid l bid = (l', Normal (Some err)) -> l' = l.
Proof.
  unfold SubmitBid.
  destruct (currentAuction l); [|now inversion 1].
  destruct (big.Uint64 (L1Block bid)); [|discriminate].
  destruct (negb _); now inversion 1.
Qed.

(** C3.  A bid for block 2^64 + 10, sent while the auction for block 10
    is live, is not refused: [Uint64] keeps the low 64 bits of the
    block, the comparison succeeds, the bid reaches the auction and
    [SubmitBid] returns nil. *)
Theorem SubmitBid_block_truncated (lg : list LogRecord) (c : C)
    (reg : RelayRegistry) (d : Chan unit) (nb : Chan big.Int)
    (won : Chan SignedBid) (auction : RelayAuction)
    (amount : big.Int) (addr : Address) (sig : Bytes) :
  let bid := {| AmountWei := amount; L1Block := Some (2 ^ 64 + 10);
                Address_ := addr; Signature := sig |} in
  let l := {| logger := lg; ethClient := c; relayRegistry := reg;
              DoneChan := d; NewBlockChan := nb; AuctionWonChan := won;
              currentBlockNum := 10;
              currentAuction := Some auction |} in
  L1Block bid <> Some (currentBlockNum l)
  /\ SubmitBid l bid
     = (with_currentAuction
          (Some (RelayAuction_SubmitBid auction bid)) l,
        Normal None).
Proof.
  cbv zeta. split; [discriminate|]. reflexivity.
Qed.

End MonitorClaims.

(** C2, as stated: a new listener that polls 100, 100, 101, 101, 103
    sends three signals, not two; the first carries height 0. *)
Lemma listenForBlocks_new_listener_three_signals :
  let l := scripted_listener (heights [100; 100; 101; 101; 103]) in
  let r := listenForBlocks l (repeat TickerC 5) in
  sent (NewBlockChan (fst r)) = [Some 0; Some 100; Some 101]
  /\ sent (NewBlockChan (fst r)) <> [Some 100; Some 101].
Proof. split; [reflexivity | discriminate]. Qed.

Lemma listenForBlocks_signals_witness :
  let l := scripted_listener (heights [100; 100; 101; 101; 103]) in
  answers (ethClient l) [100; 100; 101; 101; 103]
  /\ sent (NewBlockChan (fst (listenForBlocks l (repeat TickerC 5))))
     = [Some 0; Some 100; Some 101].
Proof.
  assert (Hans :
    answers (ethClient (scripted_listener
                          (heights [100; 100; 101; 101; 103])))
      [100; 100; 101; 101; 103]) by (cbn; repeat split).
  split; [exact Hans|].
  exact (proj2 (proj2 (proj2 (proj2 (proj2
    (listenForBlocks_signals _ _ Hans))))) eq_refl eq_refl).
Defined.

(** C8, as stated: with an unreachable height source the first poll ends
    the process; no error comes back to the caller. *)
Lemma listenForBlocks_unreachable_exits :
  snd (listenForBlocks (scripted_listener [inr "connection refused"])
         [TickerC; TickerC])
  = Some (OsExit 1).
Proof. reflexivity. Qed.

Lemma listenForBlocks_unreachable_witness :
  let l := scripted_listener (heights [100]) in
  let l1 := fst (listenForBlocks l [TickerC]) in
  listenForBlocks l [TickerC] = (l1, None)
  /\ BlockNumber (ethClient l1) = (inr "connection refused", [])
  /\ listenForBlocks l ([TickerC] ++ [TickerC; TickerC])
     = (log LevelError "failed to get block number" (with_ethClient [] l1),
        Some (OsExit 1)).
Proof.
  split; [reflexivity|]. split; [reflexivity|].
  apply (listenForBlocks_unreachable (scripted_listener (heights [100]))
           _ [TickerC] [TickerC] "connection refused" []);
    reflexivity.
Defined.

(** C9, as stated: after the watchdog fired for one block, the signal of
    the next block is never served: the process has exited, and the bid
    that round would have delivered is not forwarded. *)
Lemma processNewBlocks_deadline_stops :
  let r := processNewBlocks (scripted_listener [])
             [NewBlock (Some 100) Deadline;
              NewBlock (Some 101) (AuctionResult sample_winner)] in
  snd r = Some (OsExit 1)
  /\ sent (AuctionWonChan (fst r)) = []
  /\ snd (processNewBlocks (scripted_listener [])
            [NewBlock (Some 101) (AuctionResult sample_winner)]) = None
  /\ sent (AuctionWonChan (fst (processNewBlocks (scripted_listener [])
            [NewBlock (Some 101) (AuctionResult sample_winner)])))
     = [sample_winner].
Proof. repeat split. Qed.

Lemma processNewBlocks_deadline_witness :
  let l := scripted_listener [] in
  let pre := [NewBlock (Some 0) (AuctionResult sample_winner)] in
  let l1 := fst (processNewBlocks l pre) in
  processNewBlocks l pre = (l1, None)
  /\ snd (processNewBlocks l
            (pre ++ [NewBlock (Some 100) Deadline;
                     NewBlock (Some 101) (AuctionResult sample_winner)]))
     = Some (OsExit 1).
Proof.
  split; [reflexivity|].
  rewrite (processNewBlocks_deadline (scripted_listener []) _
             [NewBlock (Some 0) (AuctionResult sample_winner)]
             [NewBlock (Some 101) (AuctionResult sample_winner)]
             (Some 100) eq_refl).
  reflexivity.
Defined.

(* ================================================================== *)
(** ** Signing and verifying *)

Lemma byte_list_eqb_eq (a b : list byte) :
  byte_list_eqb a b = true <-> a = b.
Proof.
  unfold byte_list_eqb.
  destruct (list_eq_dec byte_eq_dec a b); split; auto; discriminate.
Qed.

Lemma byte_list_eqb_refl (a : list byte) : byte_list_eqb a a = true.
Proof. now apply byte_list_eqb_eq. Qed.

Section Signing.
Context {K : Crypto}.

(** A bid made by [CreateSignedBid] carries the arguments, a signature
    of their digest and the address recovered from it. *)
Lemma CreateSignedBid_inv amount block key bid :
  CreateSignedBid amount block key = inl bid ->
  AmountWei bid = amount /\ L1Block bid = block
  /\ Sign (getDataHash amount block) key = inl (Signature bid)
  /\ exists pub,
       SigToPub (getDataHash amount block) (Signature bid) = inl pub
       /\ Address_ bid = PubkeyToAddress pub.
Proof.
  unfold CreateSignedBid, getAddressFromSig.
  destruct (Sign (getDataHash amount block) key) as [sig|e] eqn:Hs;
    [|discriminate].
  destruct (SigToPub (getDataHash amount block) sig) as [pub|e] eqn:Hp;
    [|discriminate].
  intros H. inversion H; subst; clear H. cbn.
  repeat split. exists pub. split; [exact Hp | reflexivity].
Qed.

(** [Verify] is true exactly when recovery succeeds with the declared
    address. *)
Lemma Verify_true_iff (b : SignedBid) :
  Verify b = true <->
  exists pub,
    SigToPub (getDataHash (AmountWei b) (L1Block b)) (Signature b)
    = inl pub
    /\ PubkeyToAddress pub = Address_ b.
Proof.
  unfold Verify.
  destruct (SigToPub _ (Signature b)) as [pub|e].
  - rewrite byte_list_eqb_eq. split.
    + intros H. exists pub. split; [reflexivity | exact H].
    + intros (pub' & Hp & Ha). inversion Hp; subst. exact Ha.
  - split; [discriminate|]. intros (pub' & Hp & _). discriminate.
Qed.

Context {L : CryptoLaws K}.

(** C4.  Whenever [CreateSignedBid] succeeds, the bid it returns
    verifies, and its address is the address of the public key of the
    signing key. *)
Theorem CreateSignedBid_Verify (amount block : big.Int)
    (key : PrivateKey) (bid : SignedBid) :
  CreateSignedBid amount block key = inl bid ->
  Verify bid = true
  /\ Address_ bid = PubkeyToAddress (PrivateKey_Public key).
Proof.
  intros H. apply CreateSignedBid_inv in H.
  destruct H as (Ha & Hb & Hs & pub & Hp & Haddr).
  split.
  - apply Verify_true_iff. exists pub. rewrite Ha, Hb. auto.
  - apply Sign_SigToPub in Hs. rewrite Hs in Hp.
    inversion Hp; subst. exact Haddr.
Qed.

(** C6.  [Verify] always returns a boolean: true exactly when an
    address is recovered from the signature over the recomputed digest
    and equals the declared one, false when recovery fails, and so
    false for a signature of the wrong length. *)
Theorem Verify_total (b : SignedBid) :
  (Verify b = true \/ Verify b = false)
  /\ (Verify b = true <->
      exists pub,
        SigToPub (getDataHash (AmountWei b) (L1Block b)) (Signature b)
        = inl pub
        /\ PubkeyToAddress pub = Address_ b)
  /\ (forall e,
        SigToPub (getDataHash (AmountWei b) (L1Block b)) (Signature b)
        = inr e -> Verify b = false)
  /\ (List.length (Signature b) <> SignatureLength -> Verify b = false).
Proof.
  split; [destruct (Verify b); auto|].
  split; [apply Verify_true_iff|].
  split.
  - intros e He. unfold Verify. now rewrite He.
  - intros Hlen.
    destruct (SigToPub_length
                (getDataHash (AmountWei b) (L1Block b)) _ Hlen)
      as [e He].
    unfold Verify. now rewrite He.
Qed.

End Signing.

Lemma fit_length n bs : List.length (fit n bs) = n.
Proof.
  unfold fit. rewrite length_firstn, length_app, repeat_length. lia.
Qed.

Lemma signature_layout (a b : list byte) :
  List.length a = 32%nat -> List.length b = 32%nat ->
  List.length (a ++ b ++ [x00]) = SignatureLength
  /\ firstn 32 (a ++ b ++ [x00]) = a
  /\ firstn 32 (skipn 32 (a ++ b ++ [x00])) = b.
Proof.
  intros Ha Hb. repeat split.
  - rewrite !length_app, Ha, Hb. reflexivity.
  - rewrite firstn_app, Ha, Nat.sub_diag, firstn_all2 by lia.
    cbn [firstn]. apply List.app_nil_r.
  - rewrite skipn_app, Ha, Nat.sub_diag, skipn_all2 by lia.
    cbn [skipn app].
    rewrite firstn_app, Hb, Nat.sub_diag, firstn_all2 by lia.
    cbn [firstn]. apply List.app_nil_r.
Qed.

#[export] Instance ModelCrypto_laws : CryptoLaws ModelCrypto.
Proof.
  split.
  - intros h k sig H. cbn [Sign ModelCrypto] in H.
    inversion H; subst; clear H.
    destruct (signature_layout (fit 32 k) (fit 32 h)
                (fit_length _ _) (fit_length _ _)) as (H1 & H2 & H3).
    cbn [SigToPub PrivateKey_Public ModelCrypto].
    rewrite H1, H2, H3, Nat.eqb_refl, byte_list_eqb_refl. reflexivity.
  - intros h sig Hlen. cbn [SigToPub ModelCrypto].
    destruct (Nat.eqb_spec (List.length sig) SignatureLength) as [Heq|_];
      [contradiction|].
    cbn. eexists. reflexivity.
Qed.

Lemma CreateSignedBid_Verify_witness :
  let key := repeat x07 32 in
  exists bid,
    CreateSignedBid (K := ModelCrypto) (Some 1) (Some 23) key = inl bid
    /\ Verify bid = true
    /\ Address_ bid = PubkeyToAddress (PrivateKey_Public key).
Proof.
  eexists. split; [reflexivity|].
  apply (CreateSignedBid_Verify (K := ModelCrypto) (Some 1) (Some 23)
           (repeat x07 32)).
  reflexivity.
Defined.

Lemma Verify_total_witness :
  let b := {| AmountWei := Some 1; L1Block := Some 23;
              Address_ := zeroAddr; Signature := [x01; x02] |} in
  List.length (Signature b) <> SignatureLength
  /\ Verify (K := ModelCrypto) b = false.
Proof.
  assert (Hlen : List.length [x01; x02] <> SignatureLength)
    by (cbn; discriminate).
  split; [exact Hlen|].
  exact (proj2 (proj2 (proj2
    (Verify_total (K := ModelCrypto)
       {| AmountWei := Some 1; L1Block := Some 23;
          Address_ := zeroAddr; Signature := [x01; x02] |}))) Hlen).
Defined.

(* ================================================================== *)
(** ** The wire codec *)

(** *** Texts *)

Lemma append_assoc (a b c : string) :
  ((a ++ b) ++ c = a ++ (b ++ c))%string.
Proof. induction a as [|x a IH]; cbn; [reflexivity | now rewrite IH]. Qed.

Lemma append_nil_r (a : string) : (a ++ EmptyString)%string = a.
Proof. induction a as [|x a IH]; cbn; [reflexivity | now rewrite IH]. Qed.

Lemma append_char (c : ascii) (s : string) :
  (String c EmptyString ++ s)%string = String c s.
Proof. reflexivity. Qed.

Lemma snoc_append (acc : string) (c : ascii) (s : string) :
  (snoc acc c ++ s = acc ++ String c s)%string.
Proof. unfold snoc. now rewrite append_assoc. Qed.

Lemma length_append (a b : string) :
  String.length (a ++ b) = (String.length a + String.length b)%nat.
Proof. induction a as [|x a IH]; cbn; [reflexivity | now rewrite IH]. Qed.

Lemma string_forall_append p (a b : string) :
  string_forall p (a ++ b) = string_forall p a && string_forall p b.
Proof.
  induction a as [|x a IH]; cbn; [reflexivity|].
  now rewrite IH, andb_assoc.
Qed.

(** *** The scanner on the pieces of an encoded bid *)

Lemma word_char_not_space c : is_word_char c = true -> is_space c = false.
Proof.
  destruct c as [[] [] [] [] [] [] [] []]; cbv; congruence.
Qed.

Lemma lex_top_word c :
  is_word_char c = true ->
  lex_top c = Some ([], MWord (String c EmptyString)).
Proof.
  intros H. unfold lex_top. now rewrite (word_char_not_space c H), H.
Qed.

(** Inside a number or literal the scanner runs to the first character
    that cannot belong to one. *)
Lemma lex_word_run : forall w acc c rest,
  string_forall is_word_char w = true ->
  is_word_char c = false ->
  lex (MWord acc) (w ++ String c rest)
  = match word_token (acc ++ w), lex_top c with
    | Some t, Some (ts, m) => option_map (fun r => t :: ts ++ r) (lex m rest)
    | _, _ => None
    end.
Proof.
  induction w as [|x w IH]; intros acc c rest Hw Hc.
  - cbn [append lex]. now rewrite Hc, append_nil_r.
  - cbn [string_forall] in Hw. apply andb_true_iff in Hw as [Hx Hw].
    cbn [append lex]. rewrite Hx, IH by assumption.
    now rewrite snoc_append.
Qed.

(** A number or literal followed by a comma. *)
Lemma lex_word_comma w t rest :
  w <> EmptyString ->
  string_forall is_word_char w = true ->
  word_token w = Some t ->
  lex MTop (w ++ String "," rest)
  = option_map (fun r => t :: TComma :: r) (lex MTop rest).
Proof.
  intros Hne Hw Ht. destruct w as [|x w]; [congruence|].
  cbn [string_forall] in Hw. apply andb_true_iff in Hw as [Hx Hw].
  cbn [append lex]. rewrite (lex_top_word x Hx).
  rewrite (lex_word_run w (String x EmptyString) "," rest Hw eq_refl).
  cbn [append]. rewrite Ht.
  change (lex_top ",") with (Some ([TComma], MTop)). cbv iota beta.
  now destruct (lex MTop rest).
Qed.

(** Inside a string the scanner runs to the closing quote. *)
Lemma lex_string_run : forall s acc rest,
  string_forall is_plain s = true ->
  lex (MString acc 0) (s ++ String dquote rest)
  = option_map (cons (TString (acc ++ s))) (lex MTop rest).
Proof.
  induction s as [|x s IH]; intros acc rest Hs.
  - cbn [append lex]. now rewrite append_nil_r.
  - cbn [string_forall] in Hs. apply andb_true_iff in Hs as [Hx Hs].
    cbn [append lex]. unfold is_plain in Hx.
    destruct (lex_string_char 0 x) as [[[|n]|]|]; try discriminate.
    rewrite IH by assumption. now rewrite snoc_append.
Qed.

(** A quoted text without escapes is one string token. *)
Lemma lex_quoted s rest :
  string_forall is_plain s = true ->
  lex MTop (json_quote s ++ rest)
  = option_map (cons (TString s)) (lex MTop rest).
Proof.
  intros Hs. unfold json_quote. cbn [append lex].
  change (lex_top dquote) with (Some (@nil token, MString EmptyString 0)).
  cbv iota beta. rewrite append_assoc. cbn [append].
  rewrite lex_string_run by assumption. cbn [append].
  now destruct (lex MTop rest).
Qed.

(** *** Decimal texts *)

Lemma string_of_uint_word d :
  string_forall is_word_char (NilEmpty.string_of_uint d) = true.
Proof. induction d; cbn; auto. Qed.

Lemma string_of_uint_digits d :
  num_run NInt (NilEmpty.string_of_uint d) = Some NInt.
Proof. induction d; cbn; auto. Qed.

(** The digits of a positive number start with a digit other than 0. *)
Lemma to_uint_head p :
  exists c rest,
    NilEmpty.string_of_uint (Pos.to_uint p) = String c rest
    /\ num_step NBegin c = Some NInt
    /\ num_step NNeg c = Some NInt
    /\ num_step NInt c = Some NInt
    /\ c <> "-"%char
    /\ (c =? "t")%char = false /\ (c =? "f")%char = false
    /\ (c =? "n")%char = false.
Proof.
  pose proof (Unsigned.to_uint_nonzero p) as Hnz.
  pose proof (Unsigned.to_uint_nonnil p) as Hnn.
  assert (Hn : Pos.to_uint p = Decimal.nzhead (Pos.to_uint p)).
  { pose proof (Unsigned.to_of (Pos.to_uint p)) as H.
    rewrite Unsigned.of_to in H. cbn in H.
    rewrite <- unorm_nzhead; [now symmetry|].
    intros Hnil. apply unorm_0 in Hnil. congruence. }
  pose proof (nzhead_nonzero (Pos.to_uint p)) as Hh.
  rewrite <- Hn in Hh.
  destruct (Pos.to_uint p) as [|d|d|d|d|d|d|d|d|d|d];
    [congruence | exfalso; now apply (Hh d) | ..];
    eexists _, _; cbn; repeat split; discriminate.
Qed.

Lemma bigInt_text_facts (z : Z) :
  let s := big.String (Some z) in
  s <> EmptyString
  /\ string_forall is_word_char s = true
  /\ word_token s = Some (TNumber s)
  /\ NilZero.int_of_string s = Some (Z.to_int z).
Proof.
  cbv zeta. unfold big.String.
  assert (Hisi : NilZero.int_of_string (NilZero.string_of_int (Z.to_int z))
                 = Some (Z.to_int z)).
  { apply NilZero.isi; destruct z; cbn; try discriminate;
      intros H; inversion H as [H'];
      now apply (Unsigned.to_uint_nonnil p). }
  destruct z as [|p|p].
  - cbn. repeat split; discriminate.
  - destruct (to_uint_head p) as (c & rest & Hs & H1 & _ & H3 & _ & Ht & Hf & Hn).
    pose proof (string_of_uint_word (Pos.to_uint p)) as Hw.
    pose proof (string_of_uint_digits (Pos.to_uint p)) as Hd.
    pose proof (Unsigned.to_uint_nonnil p) as Hnn.
    assert (Hstr : NilZero.string_of_int (Z.to_int (Z.pos p))
                   = String c rest).
    { cbn. unfold NilZero.string_of_uint.
      destruct (Pos.to_uint p); [congruence | exact Hs ..]. }
    rewrite Hstr in *. rewrite Hs in Hw, Hd.
    split; [discriminate|]. split; [exact Hw|]. split; [|exact Hisi].
    unfold word_token. cbn [String.eqb]. rewrite Ht, Hf, Hn.
    unfold is_number. cbn [num_run]. rewrite H1.
    cbn [num_run] in Hd. rewrite H3 in Hd.
    assert (Hrest : num_run NInt rest = Some NInt) by exact Hd.
    now rewrite Hrest.
  - destruct (to_uint_head p) as (c & rest & Hs & H1 & H2 & H3 & _).
    pose proof (string_of_uint_word (Pos.to_uint p)) as Hw.
    pose proof (string_of_uint_digits (Pos.to_uint p)) as Hd.
    pose proof (Unsigned.to_uint_nonnil p) as Hnn.
    assert (Hstr : NilZero.string_of_int (Z.to_int (Z.neg p))
                   = String "-" (String c rest)).
    { cbn. unfold NilZero.string_of_uint.
      destruct (Pos.to_uint p); [congruence | now rewrite Hs ..]. }
    rewrite Hstr in *. rewrite Hs in Hw, Hd.
    split; [discriminate|]. split; [exact Hw|]. split; [|exact Hisi].
    unfold word_token. cbn [String.eqb Ascii.eqb Bool.eqb].
    unfold is_number. cbn [num_run].
    change (num_step NBegin "-") with (Some NNeg). cbv iota beta.
    rewrite H2.
    cbn [num_run] in Hd. rewrite H3 in Hd.
    assert (Hrest : num_run NInt rest = Some NInt) by exact Hd.
    now rewrite Hrest.
Qed.

(** *** Hex texts *)

Lemma hex_byte_plain b : string_forall is_plain (hex_byte b) = true.
Proof. destruct b; reflexivity. Qed.

Lemma hex_Decode_byte b s :
  hex_Decode (hex_byte b ++ s) = option_map (cons b) (hex_Decode s).
Proof. destruct b; cbn; now destruct (hex_Decode s). Qed.

Lemma hex_Encode_plain bs : string_forall is_plain (hex_Encode bs) = true.
Proof.
  induction bs as [|b bs IH]; cbn [hex_Encode]; [reflexivity|].
  now rewrite string_forall_append, hex_byte_plain, IH.
Qed.

Lemma hex_Decode_Encode bs : hex_Decode (hex_Encode bs) = Some bs.
Proof.
  induction bs as [|b bs IH]; cbn [hex_Encode]; [reflexivity|].
  now rewrite hex_Decode_byte, IH.
Qed.

Lemma hex_Encode_length bs :
  String.length (hex_Encode bs) = (2 * List.length bs)%nat.
Proof.
  induction bs as [|b bs IH]; cbn [hex_Encode]; [reflexivity|].
  rewrite length_append, IH. cbn. lia.
Qed.

Lemma hexutil_MarshalText_plain bs :
  string_forall is_plain (hexutil_MarshalText bs) = true.
Proof.
  unfold hexutil_MarshalText. rewrite string_forall_append.
  now rewrite hex_Encode_plain.
Qed.

Lemma checkText_MarshalText bs :
  checkText (hexutil_MarshalText bs) = inl (hex_Encode bs).
Proof.
  unfold hexutil_MarshalText. cbn.
  rewrite hex_Encode_length.
  replace (Nat.even (2 * List.length bs)) with true; [reflexivity|].
  symmetry. apply Nat.even_spec. now exists (List.length bs).
Qed.

(** Bytes of any number come back from their hex text. *)
Lemma Bytes_UnmarshalText_MarshalText bs :
  Bytes_UnmarshalText (hexutil_MarshalText bs) = inl bs.
Proof.
  unfold Bytes_UnmarshalText.
  now rewrite checkText_MarshalText, hex_Decode_Encode.
Qed.

(** An array of [n] bytes comes back from its hex text. *)
Lemma UnmarshalFixedText_MarshalText bs n :
  List.length bs = n ->
  UnmarshalFixedText (hexutil_MarshalText bs) n = inl bs.
Proof.
  intros Hn. unfold UnmarshalFixedText.
  rewrite checkText_MarshalText, hex_Encode_length, hex_Decode_Encode.
  rewrite Nat.mul_comm, Nat.div_mul by discriminate.
  now rewrite Hn, Nat.eqb_refl.
Qed.

(** *** Encoding and decoding a bid *)

Lemma big_Int_MarshalJSON_facts (x : big.Int) :
  let s := big_Int_MarshalJSON x in
  s <> EmptyString
  /\ string_forall is_word_char s = true
  /\ word_token s = Some (bigInt_token x).
Proof.
  destruct x as [z|]; cbv zeta.
  - destruct (bigInt_text_facts z) as (H1 & H2 & H3 & _).
    cbn [big_Int_MarshalJSON bigInt_token]. auto.
  - cbn. repeat split. discriminate.
Qed.

Lemma decode_bigInt_json (x : big.Int) : decode_bigInt (bigInt_json x) = inl x.
Proof.
  destruct x as [z|]; [|reflexivity].
  cbn [bigInt_json decode_bigInt].
  destruct (bigInt_text_facts z) as (_ & _ & _ & H).
  cbv zeta in H. rewrite H. now rewrite DecimalZ.of_to.
Qed.

(** The tokens of an encoded bid. *)
Lemma lex_json_Marshal (b : SignedBid) :
  exists text,
    json_Marshal b = inl text
    /\ lex MTop text
       = Some [TLBrace;
               TString "amountWei"; TColon; bigInt_token (AmountWei b);
               TComma;
               TString "l1Block"; TColon; bigInt_token (L1Block b);
               TComma;
               TString "address"; TColon;
               TString (hexutil_MarshalText (Address_ b));
               TComma;
               TString "signature"; TColon;
               TString (hexutil_MarshalText (Signature b));
               TRBrace].
Proof.
  eexists. split; [reflexivity|].
  destruct (big_Int_MarshalJSON_facts (AmountWei b)) as (A1 & A2 & A3).
  destruct (big_Int_MarshalJSON_facts (L1Block b)) as (B1 & B2 & B3).
  cbv zeta in A1, A2, A3, B1, B2, B3.
  rewrite !append_char.
  cbn [lex]. change (lex_top "{") with (Some ([TLBrace], MTop)).
  cbv iota beta.
  rewrite lex_quoted by reflexivity.
  cbn [lex]. change (lex_top ":") with (Some ([TColon], MTop)).
  cbv iota beta.
  rewrite (lex_word_comma _ _ _ A1 A2 A3).
  rewrite lex_quoted by reflexivity.
  cbn [lex]. change (lex_top ":") with (Some ([TColon], MTop)).
  cbv iota beta.
  rewrite (lex_word_comma _ _ _ B1 B2 B3).
  rewrite lex_quoted by reflexivity.
  cbn [lex]. change (lex_top ":") with (Some ([TColon], MTop)).
  cbv iota beta.
  rewrite lex_quoted by apply hexutil_MarshalText_plain.
  cbn [lex]. change (lex_top ",") with (Some ([TComma], MTop)).
  cbv iota beta.
  rewrite lex_quoted by reflexivity.
  cbn [lex]. change (lex_top ":") with (Some ([TColon], MTop)).
  cbv iota beta.
  rewrite lex_quoted by apply hexutil_MarshalText_plain.
  reflexivity.
Qed.

(** The document of an encoded bid. *)
Lemma parse_encoded (x y : big.Int) (a s : string) :
  parse EValue []
    [TLBrace;
     TString "amountWei"; TColon; bigInt_token x; TComma;
     TString "l1Block"; TColon; bigInt_token y; TComma;
     TString "address"; TColon; TString a; TComma;
     TString "signature"; TColon; TString s;
     TRBrace]
  = Some (JObject [("amountWei", bigInt_json x); ("l1Block", bigInt_json y);
                   ("address", JString a); ("signature", JString s)]).
Proof. destruct x, y; reflexivity. Qed.

Lemma field_of_key_names :
  field_of_key (unquote "amountWei") = Some FAmountWei
  /\ field_of_key (unquote "l1Block") = Some FL1Block
  /\ field_of_key (unquote "address") = Some FAddress
  /\ field_of_key (unquote "signature") = Some FSignature.
Proof. repeat split. Qed.

(** Storing the members of an encoded bid gives the bid back. *)
Lemma decode_encoded_members (b bid0 : SignedBid) :
  List.length (Address_ b) = AddressLength ->
  decode_members
    [("amountWei", bigInt_json (AmountWei b));
     ("l1Block", bigInt_json (L1Block b));
     ("address", JString (hexutil_MarshalText (Address_ b)));
     ("signature", JString (hexutil_MarshalText (Signature b)))] bid0
  = inl b.
Proof.
  intros Hlen.
  destruct field_of_key_names as (K1 & K2 & K3 & K4).
  cbn [decode_members]. rewrite K1, K2, K3, K4.
  cbn [decode_field decode_Address decode_Bytes
       AmountWei L1Block Address_ Signature].
  rewrite !decode_bigInt_json.
  rewrite (UnmarshalFixedText_MarshalText _ _ Hlen).
  rewrite Bytes_UnmarshalText_MarshalText.
  now destruct b.
Qed.

(** C5.  A bid whose address has the 20 bytes of its type is encoded
    without failure, and decoding the text gives the same bid: amount,
    block, address and signature are all preserved. *)
Theorem DecodeSignedBid_EncodeSignedBid (b : SignedBid) :
  List.length (Address_ b) = AddressLength ->
  exists text,
    EncodeSignedBid b = Normal text /\ DecodeSignedBid text = inl b.
Proof.
  intros Hlen.
  destruct (lex_json_Marshal b) as (text & Hm & Hlex).
  exists text. unfold EncodeSignedBid, DecodeSignedBid. rewrite Hm.
  split; [reflexivity|].
  unfold json_Unmarshal, json_parse. rewrite Hlex, parse_encoded.
  now rewrite decode_encoded_members.
Qed.

Lemma DecodeSignedBid_EncodeSignedBid_witness :
  let b := {| AmountWei := Some 12; L1Block := Some 3;
              Address_ := repeat xab 20; Signature := repeat x01 65 |} in
  List.length (Address_ b) = AddressLength
  /\ exists text,
       EncodeSignedBid b = Normal text /\ DecodeSignedBid text = inl b.
Proof.
  split; [reflexivity|].
  apply (DecodeSignedBid_EncodeSignedBid
           {| AmountWei := Some 12; L1Block := Some 3;
              Address_ := repeat xab 20; Signature := repeat x01 65 |}).
  reflexivity.
Defined.

(** *** What decoding accepts *)

Lemma uint_of_string_digits s :
  NilEmpty.uint_of_string s <> None <-> string_forall is_digit s = true.
Proof.
  induction s as [|c s IH]; cbn [NilEmpty.uint_of_string string_forall].
  - split; [reflexivity | discriminate].
  - destruct (NilEmpty.uint_of_string s) as [d|].
    + assert (Hs : string_forall is_digit s = true) by (now apply IH).
      rewrite Hs, andb_true_r.
      destruct c as [[] [] [] [] [] [] [] []]; cbn;
        split; congruence.
    + assert (Hs : string_forall is_digit s <> true).
      { intros H. now apply IH in H. }
      apply not_true_is_false in Hs. rewrite Hs, andb_false_r.
      cbn. split; congruence.
Qed.

Lemma int_of_string_integer_text s :
  NilZero.int_of_string s <> None <-> integer_text s = true.
Proof.
  destruct s as [|c s]; cbn [NilZero.int_of_string integer_text].
  - split; [congruence | discriminate].
  - destruct (c =? "-")%char.
    + unfold NilZero.uint_of_string, digits. destruct s as [|c' s].
      * cbn. split; [congruence | discriminate].
      * rewrite <- uint_of_string_digits.
        destruct (NilEmpty.uint_of_string (String c' s)); cbn;
          split; congruence.
    + unfold NilZero.uint_of_string, digits.
      rewrite <- uint_of_string_digits.
      destruct (NilEmpty.uint_of_string (String c s)); cbn;
        split; congruence.
Qed.

Lemma decodeNibble_small c n : decodeNibble c = Some n -> (n < 16)%N.
Proof.
  destruct c as [[] [] [] [] [] [] [] []]; cbv;
    intros H; inversion H; reflexivity.
Qed.

Lemma of_N_nibbles x y :
  (x < 16)%N -> (y < 16)%N -> exists b, Byte.of_N (16 * x + y) = Some b.
Proof.
  intros Hx Hy. destruct (Byte.of_N (16 * x + y)) as [b|] eqn:H.
  - now exists b.
  - apply Byte.of_N_None_iff in H. lia.
Qed.

(** Induction on a text, two characters at a time. *)
Lemma string_pair_ind (P : string -> Prop) :
  P EmptyString ->
  (forall c, P (String c EmptyString)) ->
  (forall a b s, P s -> P (String a (String b s))) ->
  forall s, P s.
Proof.
  intros H0 H1 H2.
  assert (H : forall s, P s /\ forall c, P (String c s)).
  { induction s as [|c s [IHs IHc]]; split; auto. }
  intros s. apply H.
Qed.

(** [hex.Decode] succeeds on hex digits of even number and on nothing
    else, and gives one byte for two digits. *)
Lemma hex_Decode_accepts s :
  (exists bs, hex_Decode s = Some bs)
  <-> Nat.even (String.length s) && string_forall is_hex s = true.
Proof.
  induction s as [| c | a b s IH] using string_pair_ind.
  - cbn. split; [reflexivity | now exists []].
  - cbn. split; [intros [bs H]; discriminate | discriminate].
  - cbn [hex_Decode String.length Nat.even string_forall].
    unfold is_hex at 1 2.
    destruct (decodeNibble a) as [x|] eqn:Ha;
      [|cbn [andb]; rewrite andb_false_r;
        split; [intros [bs H]; discriminate | discriminate]].
    destruct (decodeNibble b) as [y|] eqn:Hb;
      [|cbn [andb]; rewrite andb_false_r;
        split; [intros [bs H]; discriminate | discriminate]].
    cbn [andb].
    destruct (of_N_nibbles x y (decodeNibble_small _ _ Ha)
                (decodeNibble_small _ _ Hb)) as [v Hv].
    rewrite Hv, <- IH.
    destruct (hex_Decode s) as [bs|].
    + split; eauto.
    + split; intros [bs H]; discriminate.
Qed.

Lemma hex_Decode_length s :
  forall bs, hex_Decode s = Some bs ->
             String.length s = (2 * List.length bs)%nat.
Proof.
  induction s as [| c | a b s IH] using string_pair_ind; intros bs H.
  - cbn in H. inversion H. reflexivity.
  - discriminate.
  - cbn [hex_Decode] in H.
    destruct (decodeNibble a), (decodeNibble b), (hex_Decode s) as [bs'|];
      try discriminate.
    destruct (Byte.of_N _); [|discriminate].
    inversion H; subst. cbn [String.length List.length].
    rewrite (IH bs' eq_refl). lia.
Qed.

Lemma checkText_after_0x input :
  checkText input
  = match input with
    | EmptyString => inl EmptyString
    | String _ _ =>
        match after_0x input with
        | Some raw =>
            if Nat.even (String.length raw) then inl raw
            else inr "hex string of odd length"
        | None => inr "hex string without 0x prefix"
        end
    end.
Proof.
  destruct input as [|a [|b raw]]; try reflexivity.
  cbn. now destruct ((a =? "0")%char && ((b =? "x")%char || (b =? "X")%char)).
Qed.

Lemma even_half_eq n k :
  Nat.even n && Nat.eqb (Nat.div n 2) k = Nat.eqb n (2 * k).
Proof.
  destruct (Nat.even n) eqn:He; cbn [andb].
  - apply Nat.even_spec in He as [m ->].
    rewrite Nat.mul_comm, Nat.div_mul by discriminate.
    destruct (Nat.eqb_spec m k), (Nat.eqb_spec (m * 2) (2 * k));
      try reflexivity; lia.
  - symmetry. apply Nat.eqb_neq. intros ->.
    assert (Nat.even (2 * k) = true)
      by (apply Nat.even_spec; now exists k).
    congruence.
Qed.

Lemma UnmarshalFixedText_accepts input :
  (exists a, UnmarshalFixedText input AddressLength = inl a)
  <-> address_text input = true.
Proof.
  unfold UnmarshalFixedText, address_text.
  rewrite checkText_after_0x.
  destruct input as [|c input'];
    [cbn; split; [intros [a H]; discriminate | discriminate]|].
  destruct (after_0x (String c input')) as [raw|];
    [|split; [intros [a H]; discriminate | discriminate]].
  rewrite <- even_half_eq.
  destruct (Nat.even (String.length raw)) eqn:He; cbn [andb];
    [|split; [intros [a H]; discriminate | discriminate]].
  destruct (Nat.eqb (Nat.div (String.length raw) 2) AddressLength);
    cbn [negb andb];
    [|split; [intros [a H]; discriminate | discriminate]].
  pose proof (hex_Decode_accepts raw) as Hd. rewrite He in Hd.
  cbn [andb] in Hd. rewrite <- Hd.
  destruct (hex_Decode raw) as [bs|].
  - split; eauto.
  - split; intros [a H]; discriminate.
Qed.

Lemma UnmarshalFixedText_length input n a :
  UnmarshalFixedText input n = inl a -> List.length a = n.
Proof.
  unfold UnmarshalFixedText.
  destruct (checkText input) as [raw|]; [|discriminate].
  destruct (Nat.eqb_spec (Nat.div (String.length raw) 2) n) as [Hn|];
    cbn [negb]; [|discriminate].
  destruct (hex_Decode raw) as [bs|] eqn:Hd; [|discriminate].
  intros H. inversion H; subst a.
  apply hex_Decode_length in Hd. rewrite Hd in Hn.
  rewrite Nat.mul_comm, Nat.div_mul in Hn by discriminate. exact Hn.
Qed.

Lemma Bytes_UnmarshalText_accepts input :
  (exists bs, Bytes_UnmarshalText input = inl bs)
  <-> bytes_text input = true.
Proof.
  unfold Bytes_UnmarshalText, bytes_text.
  rewrite checkText_after_0x.
  destruct input as [|c input']; [cbn; split; eauto|].
  destruct (after_0x (String c input')) as [raw|];
    [|split; [intros [a H]; discriminate | discriminate]].
  pose proof (hex_Decode_accepts raw) as Hd.
  destruct (Nat.even (String.length raw)) eqn:He; cbn [andb] in *;
    [|split; [intros [a H]; discriminate | discriminate]].
  rewrite <- Hd.
  destruct (hex_Decode raw) as [bs|].
  - split; eauto.
  - split; intros [a H]; discriminate.
Qed.

Lemma decode_bigInt_accepts v :
  (exists x, decode_bigInt v = inl x)
  <-> field_takes FAmountWei v = true.
Proof.
  destruct v as [| b | lit | raw | vs | ms]; cbn;
    try (split; [intros [x H]; discriminate | discriminate]).
  - split; eauto.
  - rewrite <- int_of_string_integer_text.
    destruct (NilZero.int_of_string lit) as [d|].
    + split; [congruence | eauto].
    + split; [intros [x H]; discriminate | congruence].
Qed.

(** A field stores exactly the values it takes. *)
Lemma decode_field_accepts f v bid :
  (exists bid', decode_field f v bid = inl bid')
  <-> field_takes f v = true.
Proof.
  destruct f; cbn [decode_field].
  - rewrite <- decode_bigInt_accepts.
    destruct (decode_bigInt v) as [x|e]; split; eauto;
      intros [x' H]; discriminate.
  - change (field_takes FL1Block v) with (field_takes FAmountWei v).
    rewrite <- decode_bigInt_accepts.
    destruct (decode_bigInt v) as [x|e]; split; eauto;
      intros [x' H]; discriminate.
  - destruct v as [| b | lit | raw | vs | ms]; cbn;
      try (split; [intros [x H]; discriminate | discriminate]).
    rewrite <- UnmarshalFixedText_accepts.
    destruct (UnmarshalFixedText raw AddressLength) as [a|e];
      split; eauto; intros [x' H]; discriminate.
  - destruct v as [| b | lit | raw | vs | ms]; cbn;
      try (split; [intros [x H]; discriminate | discriminate]).
    rewrite <- Bytes_UnmarshalText_accepts.
    destruct (Bytes_UnmarshalText raw) as [a|e];
      split; eauto; intros [x' H]; discriminate.
Qed.

Lemma decode_field_Address_length f v bid bid' :
  decode_field f v bid = inl bid' ->
  List.length (Address_ bid) = AddressLength ->
  List.length (Address_ bid') = AddressLength.
Proof.
  destruct f; cbn [decode_field].
  - destruct (decode_bigInt v); [|discriminate].
    intros H; inversion H; subst; auto.
  - destruct (decode_bigInt v); [|discriminate].
    intros H; inversion H; subst; auto.
  - destruct (decode_Address v) as [a|] eqn:Ha; [|discriminate].
    intros H _; inversion H; subst. cbn.
    destruct v; try discriminate. cbn in Ha.
    now apply UnmarshalFixedText_length in Ha.
  - destruct (decode_Bytes v); [|discriminate].
    intros H; inversion H; subst; auto.
Qed.

(** The members are stored exactly when each field member is taken. *)
Lemma decode_members_accepts ms : forall bid,
  (exists bid', decode_members ms bid = inl bid') <-> members_taken ms.
Proof.
  unfold members_taken.
  induction ms as [|[key v] ms IH]; intros bid; cbn [decode_members].
  - split; [constructor | eauto].
  - destruct (field_of_key (unquote key)) as [f|] eqn:Hf.
    + destruct (decode_field f v bid) as [bid1|e] eqn:Hd.
      * rewrite IH. split.
        -- intros H. constructor; [|exact H].
           cbn [fst snd]. intros f' Hf'. rewrite Hf in Hf'.
           inversion Hf'; subst f'.
           apply (decode_field_accepts f v bid). eauto.
        -- intros H. now inversion H.
      * split; [intros [bid' H]; discriminate|].
        intros H. inversion H as [|m ms' Hm Hms]; subst.
        cbn [fst snd] in Hm. specialize (Hm f Hf).
        apply (decode_field_accepts f v bid) in Hm as [bid' Hm].
        congruence.
    + rewrite IH. split.
      * intros H. constructor; [|exact H].
        cbn [fst snd]. intros f' Hf'. congruence.
      * intros H. now inversion H.
Qed.

Lemma decode_members_Address_length ms : forall bid bid',
  decode_members ms bid = inl bid' ->
  List.length (Address_ bid) = AddressLength ->
  List.length (Address_ bid') = AddressLength.
Proof.
  induction ms as [|[key v] ms IH]; intros bid bid'; cbn [decode_members].
  - intros H; inversion H; subst; auto.
  - destruct (field_of_key (unquote key)) as [f|]; [|apply IH].
    destruct (decode_field f v bid) as [bid1|e] eqn:Hd; [|discriminate].
    intros H Hlen. apply (IH bid1 bid' H).
    now apply (decode_field_Address_length f v bid).
Qed.

Lemma decode_field_keeps f g v bid bid' :
  decode_field g v bid = inl bid' -> g <> f ->
  field_zero f bid -> field_zero f bid'.
Proof.
  destruct g; cbn [decode_field];
    [destruct (decode_bigInt v) | destruct (decode_bigInt v)
     | destruct (decode_Address v) | destruct (decode_Bytes v)];
    try discriminate;
    intros H Hne Hz; inversion H; subst; clear H;
    destruct f; cbn in *; congruence.
Qed.

(** A field no member goes to keeps its zero value. *)
Lemma decode_members_missing f ms : forall bid bid',
  decode_members ms bid = inl bid' ->
  field_missing f ms -> field_zero f bid -> field_zero f bid'.
Proof.
  unfold field_missing.
  induction ms as [|[key v] ms IH]; intros bid bid'; cbn [decode_members].
  - intros H; inversion H; subst; auto.
  - intros H Hm Hz. inversion Hm as [|m ms' Hk Hms]; subst.
    cbn [fst] in Hk.
    destruct (field_of_key (unquote key)) as [g|]; [|eauto].
    destruct (decode_field g v bid) as [bid1|e] eqn:Hd; [|discriminate].
    apply (IH bid1 bid' H Hms).
    apply (decode_field_keeps f g v bid bid1 Hd); [congruence | exact Hz].
Qed.

(** C7 (amended).  Decoding returns a bid exactly when the text is valid
    JSON for [null] or for an object each of whose members that goes to a
    field holds a value the field takes: null or an integer (digits after
    an optional minus sign) for the amount and the block, a string of 0x
    and 40 hex digits for the address, an empty string or 0x and hex
    digits of even number for the signature.  Otherwise it returns an
    error.  A decoded bid has an address of 20 bytes, and a field that no
    member of the object goes to holds its zero value. *)
Theorem DecodeSignedBid_accepts (data : string) :
  ((exists bid, DecodeSignedBid data = inl bid)
   <-> (json_parse data = Some JNull
        \/ exists ms, json_parse data = Some (JObject ms)
                      /\ members_taken ms))
  /\ ((exists err, DecodeSignedBid data = inr err)
      <-> ~ (json_parse data = Some JNull
             \/ exists ms, json_parse data = Some (JObject ms)
                           /\ members_taken ms))
  /\ (forall bid, DecodeSignedBid data = inl bid ->
        List.length (Address_ bid) = AddressLength)
  /\ (forall bid ms f,
        DecodeSignedBid data = inl bid ->
        json_parse data = Some (JObject ms) ->
        field_missing f ms -> field_zero f bid).
Proof.
  assert (Hiff : (exists bid, DecodeSignedBid data = inl bid)
     <-> (json_parse data = Some JNull
          \/ exists ms, json_parse data = Some (JObject ms)
                        /\ members_taken ms)).
  { unfold DecodeSignedBid, json_Unmarshal.
    destruct (json_parse data) as [[| b | lit | raw | vs | ms]|];
      try (split; [intros [bid H]; discriminate
                  | intros [H | (ms' & H & _)]; discriminate]).
    - split; [now left | now exists zeroBid].
    - pose proof (decode_members_accepts ms zeroBid) as Hacc.
      destruct (decode_members ms zeroBid) as [bid|e].
      + split; [|eauto]. intros _. right. exists ms.
        split; [reflexivity|]. apply Hacc. eauto.
      + split; [intros [bid H]; discriminate|].
        intros [H | (ms' & H & Hm)]; [discriminate|].
        inversion H; subst ms'. apply Hacc in Hm as [bid Hm].
        discriminate. }
  split; [exact Hiff|]. split; [|split].
  - rewrite <- Hiff.
    destruct (DecodeSignedBid data) as [bid|err]; split.
    + intros [e H]; discriminate.
    + intros H. exfalso. apply H. eauto.
    + intros _ [bid H]. discriminate.
    + eauto.
  - intros bid. unfold DecodeSignedBid, json_Unmarshal.
    destruct (json_parse data) as [[| b | lit | raw | vs | ms]|];
      try discriminate.
    + intros H; inversion H; reflexivity.
    + destruct (decode_members ms zeroBid) as [bid'|e] eqn:Hd;
        [|discriminate].
      intros H; inversion H; subst bid'.
      now apply (decode_members_Address_length ms zeroBid bid Hd).
  - intros bid ms f. unfold DecodeSignedBid, json_Unmarshal.
    intros H Hp. rewrite Hp in H.
    destruct (decode_members ms zeroBid) as [bid'|e] eqn:Hd;
      [|discriminate].
    inversion H; subst bid'. intros Hm.
    apply (decode_members_missing f ms zeroBid bid Hd Hm).
    now destruct f.
Qed.

(** C7, as stated: an object without any of the four fields decodes to
    the zero bid, a negative amount is taken, and so is a signature of a
    single byte. *)
Lemma DecodeSignedBid_not_strict :
  DecodeSignedBid "{}" = inl zeroBid
  /\ DecodeSignedBid ("{" ++ json_quote "amountWei" ++ ":-5}")
     = inl {| AmountWei := Some (-5); L1Block := None;
              Address_ := zeroAddr; Signature := [] |}
  /\ DecodeSignedBid
       ("{" ++ json_quote "signature" ++ ":" ++ json_quote "0x01" ++ "}")
     = inl {| AmountWei := None; L1Block := None;
              Address_ := zeroAddr; Signature := [x01] |}.
Proof. repeat split. Qed.

Lemma DecodeSignedBid_accepts_witness :
  DecodeSignedBid "{}" = inl zeroBid
  /\ json_parse "{}" = Some (JObject [])
  /\ field_missing FAddress []
  /\ field_zero FAddress zeroBid.
Proof.
  assert (Hd : DecodeSignedBid "{}" = inl zeroBid) by reflexivity.
  assert (Hp : json_parse "{}" = Some (JObject [])) by reflexivity.
  assert (Hm : field_missing FAddress []) by constructor.
  split; [exact Hd|]. split; [exact Hp|]. split; [exact Hm|].
  exact (proj2 (proj2 (proj2 (DecodeSignedBid_accepts "{}")))
           zeroBid [] FAddress Hd Hp Hm).
Defined.

(* ================================================================== *)
(** ** More on the block monitor *)

Section MonitorRuns.
Context {A : RelayAuctionAPI} {C : Type} {E : EthClient C}.

Lemma wrap_range x : 0 <= Uint64.wrap x < Uint64.modulus.
Proof. unfold Uint64.wrap, Uint64.modulus. apply Z.mod_pos_bound. lia. Qed.

(** What one tick may do to the listener. *)
Lemma listenForBlocks_tick_inv (l l1 : Listener C) (r : ctl unit) :
  listenForBlocks_tick l = (l1, r) ->
  currentAuction l1 = currentAuction l
  /\ AuctionWonChan l1 = AuctionWonChan l
  /\ relayRegistry l1 = relayRegistry l
  /\ DoneChan l1 = DoneChan l
  /\ closed (NewBlockChan l1) = closed (NewBlockChan l)
  /\ (r = OsExit 1 \/ r = Normal tt)
  /\ ((sent (NewBlockChan l1) = sent (NewBlockChan l)
       /\ currentBlockNum l1 = currentBlockNum l)
      \/ (sent (NewBlockChan l1)
          = sent (NewBlockChan l)
              ++ [big.NewInt (Uint64.to_int64 (currentBlockNum l))]
          /\ currentBlockNum l < currentBlockNum l1 < Uint64.modulus
          /\ r = Normal tt)).
Proof.
  unfold listenForBlocks_tick, MustGetBlockNum.
  destruct (BlockNumber (ethClient l)) as [[h|e] c].
  - cbn [currentBlockNum with_ethClient].
    destruct (Uint64.wrap h >? currentBlockNum l) eqn:Hgt;
      intros H; inversion H; subst; clear H; cbn.
    + repeat split; auto. right. repeat split.
      * apply Z.gtb_gt in Hgt. lia.
      * apply wrap_range.
    + repeat split; auto.
  - intros H; inversion H; subst; clear H; cbn. repeat split; auto.
Qed.

(** The height held after a run, against the height held before. *)
Lemma listenForBlocks_run_height (sel : list BlockSelect) :
  forall l : Listener C,
    0 <= currentBlockNum l < Uint64.modulus ->
    currentBlockNum l <= currentBlockNum (fst (listenForBlocks l sel))
    /\ currentBlockNum (fst (listenForBlocks l sel)) < Uint64.modulus.
Proof.
  induction sel as [|x sel IH]; intros l Hr.
  - cbn [listenForBlocks fst]. lia.
  - destruct x; cbn [listenForBlocks].
    + change (currentBlockNum (fst _)) with (currentBlockNum l). lia.
    + destruct (listenForBlocks_tick l) as [l1 r] eqn:Ht.
      destruct (listenForBlocks_tick_inv l l1 r Ht)
        as (_ & _ & _ & _ & _ & _ & Hs).
      assert (Hr1 : currentBlockNum l <= currentBlockNum l1
                    /\ 0 <= currentBlockNum l1 < Uint64.modulus).
      { destruct Hs as [[_ Hc] | (_ & Hc & _)]; [rewrite Hc|]; lia. }
      destruct r as [u|code|msg]; cbn [fst]; try lia.
      destruct (IH l1 (proj2 Hr1)). lia.
Qed.

(** X2.  A run of the monitor leaves the auction slot, the channel of
    winning bids and the registry alone, and never takes back a signal
    it has sent. *)
Theorem listenForBlocks_frame (sel : list BlockSelect) :
  forall l : Listener C,
    let l' := fst (listenForBlocks l sel) in
    currentAuction l' = currentAuction l
    /\ AuctionWonChan l' = AuctionWonChan l
    /\ relayRegistry l' = relayRegistry l
    /\ exists more,
         sent (NewBlockChan l') = sent (NewBlockChan l) ++ more
         /\ (List.length more <= List.length sel)%nat.
Proof.
  induction sel as [|x sel IH]; intros l; cbv zeta.
  - cbn. repeat split. exists []. now rewrite List.app_nil_r.
  - destruct x; cbn [listenForBlocks].
    + cbn. repeat split. exists []. rewrite List.app_nil_r.
      split; [reflexivity | cbn; lia].
    + destruct (listenForBlocks_tick l) as [l1 r] eqn:Ht.
      destruct (listenForBlocks_tick_inv l l1 r Ht)
        as (Ha & Hw & Hg & _ & _ & _ & Hs).
      assert (Hmore : exists m, sent (NewBlockChan l1)
                                = sent (NewBlockChan l) ++ m
                                /\ (List.length m <= 1)%nat).
      { destruct Hs as [[Hs _] | (Hs & _)].
        - exists []. rewrite List.app_nil_r. split; [exact Hs | cbn; lia].
        - eexists. split; [exact Hs | cbn; lia]. }
      destruct Hmore as (m & Hm & Hlen).
      destruct r as [u|code|msg]; cbn [fst].
      * specialize (IH l1). cbv zeta in IH.
        destruct IH as (Ha' & Hw' & Hg' & more & Hmore & Hlen').
        rewrite Ha', Hw', Hg', Ha, Hw, Hg. repeat split.
        exists (m ++ more). rewrite Hmore, Hm, List.app_assoc.
        split; [reflexivity|]. rewrite length_app. cbn [List.length]. lia.
      * repeat split; auto. exists m. split; [exact Hm | cbn; lia].
      * repeat split; auto. exists m. split; [exact Hm | cbn; lia].
Qed.


(** The heights signalled in a run, in order. *)
Lemma listenForBlocks_run_signals (sel : list BlockSelect) :
  forall l : Listener C,
    0 <= currentBlockNum l < Uint64.modulus ->
    let l' := fst (listenForBlocks l sel) in
    exists hs,
      sent (NewBlockChan l')
      = sent (NewBlockChan l)
          ++ map (fun h => big.NewInt (Uint64.to_int64 h)) hs
      /\ StronglySorted Z.lt hs
      /\ Forall (fun h => currentBlockNum l <= h < currentBlockNum l') hs.
Proof.
  induction sel as [|x sel IH]; intros l Hr; cbv zeta.
  - exists []. cbn. rewrite List.app_nil_r. repeat constructor.
  - destruct x; cbn [listenForBlocks].
    + exists []. cbn. rewrite List.app_nil_r. repeat constructor.
    + destruct (listenForBlocks_tick l) as [l1 r] eqn:Ht.
      destruct (listenForBlocks_tick_inv l l1 r Ht)
        as (_ & _ & _ & _ & _ & Hrr & Hs).
      destruct Hs as [[Hs Hc] | (Hs & Hc & ->)].
      * destruct Hrr as [-> | ->]; cbn [fst].
        -- exists []. cbn. rewrite List.app_nil_r, Hs.
           repeat constructor.
        -- assert (Hr1 : 0 <= currentBlockNum l1 < Uint64.modulus)
             by (rewrite Hc; exact Hr).
           destruct (IH l1 Hr1) as (hs & H1 & H2 & H3).
           exists hs. rewrite H1, Hs, <- Hc. auto.
      * cbn [fst].
        assert (Hr1 : 0 <= currentBlockNum l1 < Uint64.modulus) by lia.
        destruct (IH l1 Hr1) as (hs & H1 & H2 & H3).
        exists (currentBlockNum l :: hs). rewrite H1, Hs.
        rewrite <- List.app_assoc. split; [reflexivity|].
        pose proof (listenForBlocks_run_height sel l1 Hr1) as Hm.
        split.
        -- constructor; [exact H2|].
           eapply Forall_impl; [|exact H3]. cbn. intros h Hh. lia.
        -- constructor; [lia|].
           eapply Forall_impl; [|exact H3]. cbn. intros h Hh. lia.
Qed.

(** X1.  The height the monitor holds never goes down in a run, whatever
    the height source answers, and stays a [uint64]. *)
Theorem listenForBlocks_height_monotone (sel : list BlockSelect)
    (l : Listener C) :
  0 <= currentBlockNum l < Uint64.modulus ->
  currentBlockNum l <= currentBlockNum (fst (listenForBlocks l sel))
  /\ currentBlockNum (fst (listenForBlocks l sel)) < Uint64.modulus.
Proof. apply listenForBlocks_run_height. Qed.

(** X4.  The heights signalled in a run are strictly increasing: each is
    the height held when it was sent, at least the height held at the
    start and below the height held at the end.  No height is signalled
    twice. *)
Theorem listenForBlocks_signals_increase (sel : list BlockSelect)
    (l : Listener C) :
  0 <= currentBlockNum l < Uint64.modulus ->
  let l' := fst (listenForBlocks l sel) in
  exists hs,
    sent (NewBlockChan l')
    = sent (NewBlockChan l)
        ++ map (fun h => big.NewInt (Uint64.to_int64 h)) hs
    /\ StronglySorted Z.lt hs
    /\ Forall (fun h => currentBlockNum l <= h < currentBlockNum l') hs.
Proof. apply listenForBlocks_run_signals. Qed.

(** X17.  [Start] on a listener that has run before opens both channels
    anew and keeps the height held: the run that follows signals, in
    strictly increasing order, only heights from the height the earlier
    run ended with. *)
Theorem Start_listenForBlocks (sel1 sel2 : list BlockSelect)
    (l : Listener C) :
  0 <= currentBlockNum l < Uint64.modulus ->
  let l1 := fst (listenForBlocks l sel1) in
  let l2 := fst (listenForBlocks (Start l1) sel2) in
  closed (DoneChan (Start l1)) = false
  /\ closed (NewBlockChan (Start l1)) = false
  /\ exists hs,
       sent (NewBlockChan l2)
       = map (fun h => big.NewInt (Uint64.to_int64 h)) hs
       /\ StronglySorted Z.lt hs
       /\ Forall (fun h => currentBlockNum l <= currentBlockNum l1
                           /\ currentBlockNum l1 <= h < currentBlockNum l2)
            hs.
Proof.
  intros Hr. cbv zeta.
  pose proof (listenForBlocks_run_height sel1 l Hr) as H1.
  split; [reflexivity|]. split; [reflexivity|].
  destruct (listenForBlocks_run_signals sel2
              (Start (fst (listenForBlocks l sel1)))) as (hs & Hs & Hsort & Hb).
  { change (currentBlockNum (Start (fst (listenForBlocks l sel1))))
      with (currentBlockNum (fst (listenForBlocks l sel1))). lia. }
  exists hs. split; [exact Hs|]. split; [exact Hsort|].
  eapply Forall_impl; [|exact Hb]. cbn beta. intros h Hh.
  change (currentBlockNum (Start (fst (listenForBlocks l sel1))))
    with (currentBlockNum (fst (listenForBlocks l sel1))) in Hh. lia.
Qed.

(** X5.  From height 2^63 on, the signal does not carry the height held:
    the conversion to [int64] makes it that height less 2^64, a negative
    number. *)
Theorem listenForBlocks_tick_high_height (l : Listener C) (h : Z) (c : C) :
  BlockNumber (ethClient l) = (inl h, c) ->
  2 ^ 63 <= currentBlockNum l < Uint64.modulus ->
  Uint64.wrap h > currentBlockNum l ->
  exists l',
    listenForBlocks_tick l = (l', Normal tt)
    /\ sent (NewBlockChan l')
       = sent (NewBlockChan l) ++ [Some (currentBlockNum l - 2 ^ 64)]
    /\ currentBlockNum l - 2 ^ 64 < 0.
Proof.
  intros Hc Hr Hgt.
  destruct (listenForBlocks_tick_new l h c Hc Hgt)
    as (l' & Ht & Hs & _).
  exists l'. split; [exact Ht|]. split; [|unfold Uint64.modulus in Hr; lia].
  rewrite Hs. unfold big.NewInt, Uint64.to_int64, Uint64.wrap.
  unfold Uint64.modulus in *. rewrite Z.mod_small by lia.
  destruct (currentBlockNum l <? 2 ^ 63) eqn:Hlt; [|reflexivity].
  apply Z.ltb_lt in Hlt. lia.
Qed.

(* ------------------------------------------------------------------ *)
(** *** The block processor *)

(** What one round does to the listener. *)
Lemma FacilitateRelayAuction_inv (l l1 : Listener C) sel (r : ctl unit) :
  FacilitateRelayAuction l sel = (l1, r) ->
  currentBlockNum l1 = currentBlockNum l
  /\ NewBlockChan l1 = NewBlockChan l
  /\ DoneChan l1 = DoneChan l
  /\ ethClient l1 = ethClient l
  /\ relayRegistry l1 = relayRegistry l
  /\ match sel with
     | AuctionResult bid =>
         r = Normal tt
         /\ currentAuction l1 = None
         /\ sent (AuctionWonChan l1)
            = sent (AuctionWonChan l)
                ++ (if byte_list_eqb (Address_ bid) zeroAddr then []
                    else [bid])
     | Deadline =>
         r = OsExit 1
         /\ currentAuction l1 = Some (NewRelayAuction (relayRegistry l))
         /\ AuctionWonChan l1 = AuctionWonChan l
     end.
Proof.
  unfold FacilitateRelayAuction. destruct sel as [bid|].
  - destruct (byte_list_eqb (Address_ bid) zeroAddr);
      intros H; inversion H; subst; clear H; cbn;
      rewrite ?List.app_nil_r; repeat split.
  - intros H; inversion H; subst; clear H; cbn. repeat split.
Qed.

(** X6.  In a run of the processor, the channel of winning bids gets
    exactly the bids of the rounds that delivered a bidder, in order and
    once each, up to the first input that ends the run: a round whose
    result has the zero address hands nothing on, and no bid with the
    zero address is ever handed on. *)
Theorem processNewBlocks_forwarded (sel : list ProcessSelect) :
  forall l : Listener C,
    sent (AuctionWonChan (fst (processNewBlocks l sel)))
    = sent (AuctionWonChan l) ++ forwarded sel
    /\ Forall (fun bid => Address_ bid <> zeroAddr) (forwarded sel)
    /\ (List.length (forwarded sel) <= List.length sel)%nat.
Proof.
  induction sel as [|x sel IH]; intros l.
  - cbn. rewrite List.app_nil_r. repeat split; auto.
  - destruct x as [|n [bid|]]; cbn [processNewBlocks forwarded].
    + cbn. rewrite List.app_nil_r. repeat split; auto. lia.
    + destruct (FacilitateRelayAuction
                  (log LevelInfo "processing new block" l)
                  (AuctionResult bid)) as [l1 r] eqn:Hf.
      destruct (FacilitateRelayAuction_inv _ _ _ _ Hf)
        as (_ & _ & _ & _ & _ & -> & _ & Hs).
      destruct (IH l1) as (H1 & H2 & H3).
      rewrite H1, Hs.
      change (sent (AuctionWonChan (log LevelInfo "processing new block" l)))
        with (sent (AuctionWonChan l)).
      destruct (byte_list_eqb (Address_ bid) zeroAddr) eqn:Hz.
      * rewrite List.app_nil_r. repeat split; auto. cbn. lia.
      * rewrite <- List.app_assoc. repeat split.
        -- constructor; [|exact H2]. intros Heq.
           apply byte_list_eqb_eq in Heq. congruence.
        -- cbn. lia.
    + cbn. rewrite List.app_nil_r. repeat split; auto. lia.
Qed.

(** X7.  A run of the processor that starts with the auction slot empty
    ends in one of two ways only: it returns on a cancellation, or it
    ends the process with status 1 with the auction of the round still in
    the slot.  It never panics.  Whenever the run has returned or is
    waiting for its next input, the slot is empty again.  The run never
    changes the height held, the block channel or the height source. *)
Theorem processNewBlocks_ends (sel : list ProcessSelect) :
  forall l : Listener C,
    currentAuction l = None ->
    let l' := fst (processNewBlocks l sel) in
    currentBlockNum l' = currentBlockNum l
    /\ NewBlockChan l' = NewBlockChan l
    /\ ethClient l' = ethClient l
    /\ match snd (processNewBlocks l sel) with
       | Some (Normal _) =>
           In ProcessCtxDone sel /\ currentAuction l' = None
       | Some (OsExit code) =>
           code = 1
           /\ currentAuction l' = Some (NewRelayAuction (relayRegistry l))
       | Some (GoPanic _) => False
       | None => ~ In ProcessCtxDone sel /\ currentAuction l' = None
       end.
Proof.
  induction sel as [|x sel IH]; intros l Hnone; cbv zeta.
  - cbn. tauto.
  - destruct x as [|n round]; cbn [processNewBlocks].
    + cbn. tauto.
    + destruct (FacilitateRelayAuction
                  (log LevelInfo "processing new block" l) round)
        as [l1 r] eqn:Hf.
      destruct (FacilitateRelayAuction_inv _ _ _ _ Hf)
        as (Hc & Hn & _ & He & Hg & Hsel).
      cbn [log with_logger currentBlockNum NewBlockChan ethClient
           relayRegistry] in Hc, Hn, He, Hg, Hsel.
      destruct round as [bid|].
      * destruct Hsel as (-> & Hslot & _).
        specialize (IH l1 Hslot). cbv zeta in IH.
        destruct IH as (H1 & H2 & H3 & H4).
        rewrite H1, H2, H3, Hc, Hn, He. repeat split.
        destruct (snd (processNewBlocks l1 sel)) as [[u|code|msg]|];
          try tauto.
        -- destruct H4. split; [now right | auto].
        -- rewrite Hg in H4. exact H4.
        -- destruct H4 as [H4 H5]. split; [|exact H5].
           intros [Hx | Hx]; [discriminate | auto].
      * destruct Hsel as (-> & Hslot & _). cbn [fst snd].
        repeat split; auto.
Qed.

(* ------------------------------------------------------------------ *)
(** *** Submitting and asking *)

(** X8.  While an auction is live, a bid whose block fits a [uint64] is
    let through to the auction exactly when its block is the height the
    listener holds, and is refused as a bid for a different block
    exactly when it is not. *)
Theorem SubmitBid_current_block (l : Listener C) (auction : RelayAuction)
    (bid : SignedBid) (n : Z) :
  currentAuction l = Some auction ->
  L1Block bid = Some n ->
  0 <= n < Uint64.modulus ->
  (snd (SubmitBid l bid) = Normal None <-> n = currentBlockNum l)
  /\ (snd (SubmitBid l bid) = Normal (Some WrongBlock)
      <-> n <> currentBlockNum l).
Proof.
  intros Ha Hn Hr. unfold SubmitBid. rewrite Ha, Hn.
  cbn [big.Uint64]. unfold Uint64.wrap.
  rewrite Z.abs_eq, Z.mod_small by (unfold Uint64.modulus in *; lia).
  destruct (Z.eqb_spec n (currentBlockNum l)) as [Heq|Hne]; cbn [negb snd].
  - split; split; auto; [discriminate | congruence].
  - split; split; auto; [discriminate | congruence].
Qed.

(** X9.  [SubmitBid] changes nothing but the auction in the slot, and
    never empties or fills the slot: [GetCurrentBid] finds a bid after it
    exactly if it did before.  After a bid was let through,
    [GetCurrentBid] gives the current bid of the auction that took it;
    after any other outcome the listener is as it was. *)
Theorem SubmitBid_then_GetCurrentBid (l l' : Listener C) (bid : SignedBid)
    (r : ctl (option error)) :
  SubmitBid l bid = (l', r) ->
  snd (snd (GetCurrentBid l')) = snd (snd (GetCurrentBid l))
  /\ currentBlockNum l' = currentBlockNum l
  /\ AuctionWonChan l' = AuctionWonChan l
  /\ NewBlockChan l' = NewBlockChan l
  /\ match r with
     | Normal None =>
         exists auction,
           currentAuction l = Some auction
           /\ snd (GetCurrentBid l')
              = (RelayAuction_GetCurrentBid
                   (RelayAuction_SubmitBid auction bid), true)
     | _ => l' = l
     end.
Proof.
  unfold SubmitBid, GetCurrentBid.
  destruct (currentAuction l) as [auction|] eqn:Ha.
  - destruct (big.Uint64 (L1Block bid)) as [n|].
    + destruct (negb (n =? currentBlockNum l));
        intros H; inversion H; subst; clear H; cbn;
        rewrite ?Ha; repeat split.
      exists auction. split; reflexivity.
    + intros H; inversion H; subst; clear H. rewrite Ha. repeat split.
  - intros H; inversion H; subst; clear H. rewrite Ha. repeat split.
Qed.

End MonitorRuns.

Lemma listenForBlocks_height_monotone_witness :
  let l := scripted_listener (heights [100; 99; 103]) in
  0 <= currentBlockNum l < Uint64.modulus
  /\ currentBlockNum l
     <= currentBlockNum (fst (listenForBlocks l [TickerC; TickerC; TickerC]))
  /\ currentBlockNum (fst (listenForBlocks l [TickerC; TickerC; TickerC]))
     < Uint64.modulus.
Proof.
  assert (Hr : 0 <= currentBlockNum (scripted_listener
                                       (heights [100; 99; 103]))
               < Uint64.modulus) by (cbv; split; congruence).
  split; [exact Hr|].
  exact (listenForBlocks_height_monotone [TickerC; TickerC; TickerC] _ Hr).
Defined.

Lemma listenForBlocks_signals_increase_witness :
  let l := scripted_listener (heights [100; 99; 103]) in
  0 <= currentBlockNum l < Uint64.modulus
  /\ exists hs,
       sent (NewBlockChan (fst (listenForBlocks l
                                  [TickerC; TickerC; TickerC])))
       = sent (NewBlockChan l)
           ++ map (fun h => big.NewInt (Uint64.to_int64 h)) hs
       /\ StronglySorted Z.lt hs
       /\ Forall (fun h => currentBlockNum l <= h
                           < currentBlockNum
                               (fst (listenForBlocks l
                                       [TickerC; TickerC; TickerC]))) hs.
Proof.
  assert (Hr : 0 <= currentBlockNum (scripted_listener
                                       (heights [100; 99; 103]))
               < Uint64.modulus) by (cbv; split; congruence).
  split; [exact Hr|].
  exact (listenForBlocks_signals_increase [TickerC; TickerC; TickerC] _ Hr).
Defined.

(** A listener that holds a height of 2^63 and more. *)
Lemma listenForBlocks_tick_high_height_witness :
  let l := with_currentBlockNum (2 ^ 63)
             (scripted_listener (heights [2 ^ 63 + 1])) in
  BlockNumber (ethClient l) = (inl (2 ^ 63 + 1), [])
  /\ 2 ^ 63 <= currentBlockNum l < Uint64.modulus
  /\ Uint64.wrap (2 ^ 63 + 1) > currentBlockNum l
  /\ exists l',
       listenForBlocks_tick l = (l', Normal tt)
       /\ sent (NewBlockChan l')
          = sent (NewBlockChan l) ++ [Some (currentBlockNum l - 2 ^ 64)]
       /\ currentBlockNum l - 2 ^ 64 < 0.
Proof.
  assert (H1 : BlockNumber
                 (ethClient (with_currentBlockNum (2 ^ 63)
                               (scripted_listener (heights [2 ^ 63 + 1]))))
               = (inl (2 ^ 63 + 1), [])) by reflexivity.
  assert (H2 : 2 ^ 63
               <= currentBlockNum
                    (with_currentBlockNum (2 ^ 63)
                       (scripted_listener (heights [2 ^ 63 + 1])))
               < Uint64.modulus) by (cbv; split; congruence).
  assert (H3 : Uint64.wrap (2 ^ 63 + 1)
               > currentBlockNum
                   (with_currentBlockNum (2 ^ 63)
                      (scripted_listener (heights [2 ^ 63 + 1]))))
    by reflexivity.
  split; [exact H1|]. split; [exact H2|]. split; [exact H3|].
  exact (listenForBlocks_tick_high_height _ _ _ H1 H2 H3).
Defined.

Lemma processNewBlocks_ends_witness :
  let l := scripted_listener [] in
  let sel := [NewBlock (Some 0) (AuctionResult sample_winner);
              NewBlock (Some 100) Deadline] in
  currentAuction l = None
  /\ snd (processNewBlocks l sel) = Some (OsExit 1)
  /\ currentAuction (fst (processNewBlocks l sel))
     = Some (NewRelayAuction (relayRegistry l)).
Proof.
  assert (Hn : currentAuction (scripted_listener []) = None)
    by reflexivity.
  split; [exact Hn|].
  pose proof (processNewBlocks_ends
                [NewBlock (Some 0) (AuctionResult sample_winner);
                 NewBlock (Some 100) Deadline]
                (scripted_listener []) Hn) as H.
  cbv zeta in H. destruct H as (_ & _ & _ & H).
  split; [reflexivity|].
  change (snd (processNewBlocks (scripted_listener [])
            [NewBlock (Some 0) (AuctionResult sample_winner);
             NewBlock (Some 100) Deadline]))
    with (Some (@OsExit unit 1)) in H.
  exact (proj2 H).
Defined.

Lemma SubmitBid_current_block_witness :
  let bid := {| AmountWei := Some 5; L1Block := Some 11;
                Address_ := zeroAddr; Signature := [] |} in
  currentAuction live_listener = Some live_round
  /\ L1Block bid = Some 11
  /\ 0 <= 11 < Uint64.modulus
  /\ snd (SubmitBid live_listener bid) = Normal (Some WrongBlock).
Proof.
  split; [reflexivity|]. split; [reflexivity|].
  assert (Hr : 0 <= 11 < Uint64.modulus) by (cbv; split; congruence).
  split; [exact Hr|].
  apply (SubmitBid_current_block live_listener live_round
           {| AmountWei := Some 5; L1Block := Some 11;
              Address_ := zeroAddr; Signature := [] |}
           11 eq_refl eq_refl Hr).
  discriminate.
Defined.

Lemma SubmitBid_then_GetCurrentBid_witness :
  let bid := {| AmountWei := Some 5; L1Block := Some 10;
                Address_ := zeroAddr; Signature := [] |} in
  let l' := fst (SubmitBid live_listener bid) in
  SubmitBid live_listener bid = (l', Normal None)
  /\ currentBlockNum l' = currentBlockNum live_listener.
Proof.
  assert (H : SubmitBid live_listener
                {| AmountWei := Some 5; L1Block := Some 10;
                   Address_ := zeroAddr; Signature := [] |}
              = (fst (SubmitBid live_listener
                        {| AmountWei := Some 5; L1Block := Some 10;
                           Address_ := zeroAddr; Signature := [] |}),
                 Normal None)) by reflexivity.
  split; [exact H|].
  exact (proj1 (proj2 (SubmitBid_then_GetCurrentBid _ _ _ _ H))).
Defined.

Lemma Start_listenForBlocks_witness :
  let l := scripted_listener (heights [100; 101; 103]) in
  let l1 := fst (listenForBlocks l [TickerC; CtxDone]) in
  0 <= currentBlockNum l < Uint64.modulus
  /\ closed (NewBlockChan l1) = true
  /\ closed (NewBlockChan (Start l1)) = false.
Proof.
  assert (Hr : 0 <= currentBlockNum (scripted_listener
                                       (heights [100; 101; 103]))
               < Uint64.modulus) by (cbv; split; congruence).
  split; [exact Hr|]. split; [reflexivity|].
  exact (proj1 (proj2 (Start_listenForBlocks [TickerC; CtxDone]
                         [TickerC; TickerC] _ Hr))).
Defined.

(* ================================================================== *)
(** ** More on the signed bid *)

Lemma append_inj_l (s t1 t2 : string) :
  (s ++ t1 = s ++ t2)%string -> t1 = t2.
Proof.
  induction s as [|c s IH]; cbn; [auto|].
  intros H. inversion H. auto.
Qed.

Lemma append_inj_r (t : string) : forall s1 s2 : string,
  (s1 ++ t = s2 ++ t)%string -> s1 = s2.
Proof.
  induction s1 as [|c s1 IH]; intros [|c' s2] H.
  - reflexivity.
  - apply (f_equal String.length) in H.
    cbn in H. rewrite length_append in H. lia.
  - apply (f_equal String.length) in H.
    cbn in H. rewrite length_append in H. lia.
  - cbn in H. inversion H. f_equal. now apply IH.
Qed.

(** Different numbers print differently, and no number prints as nil
    does. *)
Lemma big_String_inj (x y : big.Int) : big.String x = big.String y -> x = y.
Proof.
  destruct x as [x|], y as [y|]; intros H.
  - destruct (bigInt_text_facts x) as (_ & _ & _ & Hx).
    destruct (bigInt_text_facts y) as (_ & _ & _ & Hy).
    cbv zeta in Hx, Hy. rewrite H, Hy in Hx.
    inversion Hx as [Hi]. apply DecimalZ.to_int_inj in Hi. now subst.
  - destruct (bigInt_text_facts x) as (_ & Hw & _).
    cbv zeta in Hw. rewrite H in Hw. discriminate.
  - destruct (bigInt_text_facts y) as (_ & Hw & _).
    cbv zeta in Hw. rewrite <- H in Hw. discriminate.
  - reflexivity.
Qed.

(** X10.  With the amount fixed, the hashed text tells blocks apart, and
    with the block fixed it tells amounts apart: two bids for one block
    hash the same text only if they offer the same amount. *)
Theorem getDataHash_data_one_sided (a a' b b' : big.Int) :
  (getDataHash_data a b = getDataHash_data a b' <-> b = b')
  /\ (getDataHash_data a b = getDataHash_data a' b <-> a = a').
Proof.
  unfold getDataHash_data. split; split.
  - intros H. apply append_inj_l in H. now apply big_String_inj.
  - now intros ->.
  - intros H. apply append_inj_r in H. now apply big_String_inj.
  - now intros ->.
Qed.

Section SigningMore.
Context {K : Crypto}.

(** [Verify] looks at the amount and the block through the hashed text
    only. *)
Lemma Verify_same_text (a1 b1 a2 b2 : big.Int) (addr : Address)
    (sig : Bytes) :
  getDataHash_data a1 b1 = getDataHash_data a2 b2 ->
  Verify {| AmountWei := a1; L1Block := b1;
            Address_ := addr; Signature := sig |}
  = Verify {| AmountWei := a2; L1Block := b2;
              Address_ := addr; Signature := sig |}.
Proof.
  intros H. unfold Verify, getDataHash. cbn [AmountWei L1Block]. now rewrite H.
Qed.

(** X11.  A signature made for one amount and block is accepted by
    [Verify] for every other amount and block with the same hashed text:
    the bid with the new amount and block and the old address and
    signature verifies. *)
Theorem Verify_replay (a1 b1 a2 b2 : big.Int) (key : PrivateKey)
    (bid : SignedBid) :
  CreateSignedBid a1 b1 key = inl bid ->
  getDataHash_data a1 b1 = getDataHash_data a2 b2 ->
  Verify {| AmountWei := a2; L1Block := b2;
            Address_ := Address_ bid; Signature := Signature bid |}
  = true.
Proof.
  intros Hc Ht.
  rewrite <- (Verify_same_text a1 b1 a2 b2 _ _ Ht).
  apply CreateSignedBid_inv in Hc.
  destruct Hc as (Ha & Hb & _ & pub & Hp & Haddr).
  apply Verify_true_iff. exists pub. cbn. auto.
Qed.

Context {L : CryptoLaws K}.


(** X13.  A bid decoded from an object without a signature member never
    verifies: its signature is empty, and recovery refuses it. *)
Theorem Verify_decoded_without_signature (data : string)
    (ms : list (string * json)) (bid : SignedBid) :
  DecodeSignedBid data = inl bid ->
  json_parse data = Some (JObject ms) ->
  field_missing FSignature ms ->
  Verify bid = false.
Proof.
  unfold DecodeSignedBid, json_Unmarshal. intros Hd Hp Hm.
  rewrite Hp in Hd.
  destruct (decode_members ms zeroBid) as [bid'|e] eqn:Hdm;
    [|discriminate].
  inversion Hd; subst bid'.
  assert (Hsig : Signature bid = []).
  { apply (decode_members_missing FSignature ms zeroBid bid Hdm Hm).
    reflexivity. }
  destruct (SigToPub_length
              (getDataHash (AmountWei bid) (L1Block bid)) (Signature bid))
    as [e He].
  { rewrite Hsig. cbn. discriminate. }
  unfold Verify. now rewrite He.
Qed.

End SigningMore.

Lemma Verify_replay_witness :
  let key := repeat x07 32 in
  exists bid,
    CreateSignedBid (K := ModelCrypto) (Some 1) (Some 23) key = inl bid
    /\ getDataHash_data (Some 1) (Some 23)
       = getDataHash_data (Some 12) (Some 3)
    /\ Verify {| AmountWei := Some 12; L1Block := Some 3;
                 Address_ := Address_ bid; Signature := Signature bid |}
       = true.
Proof.
  eexists. split; [reflexivity|]. split; [reflexivity|].
  apply (Verify_replay (K := ModelCrypto) (Some 1) (Some 23)
           (Some 12) (Some 3) (repeat x07 32));
    reflexivity.
Defined.


Lemma Verify_decoded_without_signature_witness :
  DecodeSignedBid "{}" = inl zeroBid
  /\ json_parse "{}" = Some (JObject [])
  /\ field_missing FSignature []
  /\ Verify (K := ModelCrypto) zeroBid = false.
Proof.
  assert (Hd : DecodeSignedBid "{}" = inl zeroBid) by reflexivity.
  assert (Hp : json_parse "{}" = Some (JObject [])) by reflexivity.
  assert (Hm : field_missing FSignature []) by constructor.
  split; [exact Hd|]. split; [exact Hp|]. split; [exact Hm|].
  exact (Verify_decoded_without_signature (K := ModelCrypto)
           "{}" [] zeroBid Hd Hp Hm).
Defined.

(* ================================================================== *)
(** ** More on the wire codec *)

(** What [json.Marshal] writes, [json.Unmarshal] reads back. *)
Lemma json_Unmarshal_Marshal (b : SignedBid) :
  List.length (Address_ b) = AddressLength ->
  exists text, json_Marshal b = inl text /\ json_Unmarshal text = inl b.
Proof.
  intros Hlen.
  destruct (lex_json_Marshal b) as (text & Hm & Hlex).
  exists text. split; [exact Hm|].
  unfold json_Unmarshal, json_parse. rewrite Hlex, parse_encoded.
  now apply decode_encoded_members.
Qed.

Lemma json_Unmarshal_Address_length (data : string) (bid : SignedBid) :
  json_Unmarshal data = inl bid ->
  List.length (Address_ bid) = AddressLength.
Proof.
  unfold json_Unmarshal.
  destruct (json_parse data) as [[| b | lit | raw | vs | ms]|];
    try discriminate.
  - intros H; inversion H; reflexivity.
  - intros H.
    now apply (decode_members_Address_length ms zeroBid bid H).
Qed.

(** X14.  Every bid that decoding returns, from whatever text, is encoded
    without failure to a text that decodes to the same bid. *)
Theorem DecodeSignedBid_reencode (data : string) (bid : SignedBid) :
  DecodeSignedBid data = inl bid ->
  exists text,
    EncodeSignedBid bid = Normal text /\ DecodeSignedBid text = inl bid.
Proof.
  unfold DecodeSignedBid, EncodeSignedBid. intros H.
  destruct (json_Unmarshal data) as [bid'|e] eqn:Hu; [|discriminate].
  inversion H; subst bid'.
  apply json_Unmarshal_Address_length in Hu.
  destruct (json_Unmarshal_Marshal bid Hu) as (text & Hm & Hr).
  exists text. now rewrite Hm, Hr.
Qed.

(** X15.  Bids with equal encodings are equal: the text of a bid tells
    its amount, block, address and signature. *)
Theorem EncodeSignedBid_inj (b1 b2 : SignedBid) :
  List.length (Address_ b1) = AddressLength ->
  List.length (Address_ b2) = AddressLength ->
  EncodeSignedBid b1 = EncodeSignedBid b2 ->
  b1 = b2.
Proof.
  intros H1 H2. unfold EncodeSignedBid.
  destruct (json_Unmarshal_Marshal b1 H1) as (t1 & Hm1 & Hr1).
  destruct (json_Unmarshal_Marshal b2 H2) as (t2 & Hm2 & Hr2).
  rewrite Hm1, Hm2. intros H. inversion H; subst t2.
  congruence.
Qed.

Lemma DecodeSignedBid_reencode_witness :
  DecodeSignedBid ("{" ++ json_quote "AmountWei" ++ " : 7 }")
  = inl {| AmountWei := Some 7; L1Block := None;
           Address_ := zeroAddr; Signature := [] |}
  /\ exists text,
       EncodeSignedBid {| AmountWei := Some 7; L1Block := None;
                          Address_ := zeroAddr; Signature := [] |}
       = Normal text
       /\ DecodeSignedBid text
          = inl {| AmountWei := Some 7; L1Block := None;
                   Address_ := zeroAddr; Signature := [] |}.
Proof.
  assert (H : DecodeSignedBid ("{" ++ json_quote "AmountWei" ++ " : 7 }")
              = inl {| AmountWei := Some 7; L1Block := None;
                       Address_ := zeroAddr; Signature := [] |})
    by reflexivity.
  split; [exact H|].
  exact (DecodeSignedBid_reencode _ _ H).
Defined.

Lemma EncodeSignedBid_inj_witness :
  List.length (Address_ sample_winner) = AddressLength
  /\ EncodeSignedBid sample_winner = EncodeSignedBid sample_winner
  /\ sample_winner = sample_winner.
Proof.
  assert (H : List.length (Address_ sample_winner) = AddressLength)
    by reflexivity.
  split; [exact H|]. split; [reflexivity|].
  exact (EncodeSignedBid_inj sample_winner sample_winner H H eq_refl).
Defined.

(* ================================================================== *)
(** ** From the wire to the listener *)

Section WireToListener.
Context {A : RelayAuctionAPI} {C : Type} {E : EthClient C}.

(** X16.  A bid decoded from an object without a block member has a nil
    block; submitted while an auction is live it makes [SubmitBid] panic
    on the nil pointer, where a bid for a wrong block is refused. *)
Theorem SubmitBid_decoded_without_block (l : Listener C)
    (auction : RelayAuction) (data : string) (ms : list (string * json))
    (bid : SignedBid) :
  DecodeSignedBid data = inl bid ->
  json_parse data = Some (JObject ms) ->
  field_missing FL1Block ms ->
  currentAuction l = Some auction ->
  L1Block bid = None
  /\ exists msg, SubmitBid l bid = (l, GoPanic msg).
Proof.
  unfold DecodeSignedBid, json_Unmarshal. intros Hd Hp Hm Ha.
  rewrite Hp in Hd.
  destruct (decode_members ms zeroBid) as [bid'|e] eqn:Hdm;
    [|discriminate].
  inversion Hd; subst bid'.
  assert (Hb : L1Block bid = None).
  { apply (decode_members_missing FL1Block ms zeroBid bid Hdm Hm).
    reflexivity. }
  split; [exact Hb|].
  unfold SubmitBid. rewrite Ha, Hb. cbn. eexists. reflexivity.
Qed.

End WireToListener.

Lemma SubmitBid_decoded_without_block_witness :
  DecodeSignedBid "{}" = inl zeroBid
  /\ json_parse "{}" = Some (JObject [])
  /\ field_missing FL1Block []
  /\ currentAuction live_listener = Some live_round
  /\ exists msg, SubmitBid live_listener zeroBid = (live_listener, GoPanic msg).
Proof.
  assert (Hd : DecodeSignedBid "{}" = inl zeroBid) by reflexivity.
  assert (Hp : json_parse "{}" = Some (JObject [])) by reflexivity.
  assert (Hm : field_missing FL1Block []) by constructor.
  assert (Ha : currentAuction live_listener = Some live_round)
    by reflexivity.
  split; [exact Hd|]. split; [exact Hp|]. split; [exact Hm|].
  split; [exact Ha|].
  exact (proj2 (SubmitBid_decoded_without_block live_listener live_round
                  "{}" [] zeroBid Hd Hp Hm Ha)).
Defined.
